(** * CCIPCA: candid covariance-free incremental PCA

    A shallow embedding of [ccipca.py]: the estimator class [CCIPCA_CLASS]
    (constructor, [fit], [fit_next]) and the functional streaming driver
    [CCIPCA] with its two loops [_iterate] and
    [_iterate_and_compute_errors].

    The Python code mutates numpy arrays in place and passes references to
    them around, so the embedding is a small state-and-exception monad over
    a heap of arrays.  Scalars are kept abstract ([Scalar]); the two
    instances used below are IEEE binary64 (Rocq's primitive floats, what
    numpy's float64 computes with) and the real numbers (the arithmetic the
    algorithm is designed in). *)

From Stdlib Require Import ZArith List Floats Reals Lra Lia.
From stdpp Require Import base gmap list.

Local Open Scope Z_scope.

(** ** Scalars *)

(** The arithmetic the update rule needs.  [f_of_Z] is the conversion of a
    Python int to a float, [f_max a b] is [max(a, b)] on floats. *)
Class Scalar (F : Type) := {
  f_of_Z : Z -> F;
  f_add : F -> F -> F;
  f_sub : F -> F -> F;
  f_mul : F -> F -> F;
  f_div : F -> F -> F;
  f_sqrt : F -> F;
  f_max : F -> F -> F
}.

(** binary64.  [float_of_Z] is exact for integers of magnitude up to 2^53. *)
Definition float_of_Z (k : Z) : float :=
  if k <? 0 then PrimFloat.opp (PrimFloat.of_uint63 (Uint63.of_Z (- k)))
  else PrimFloat.of_uint63 (Uint63.of_Z k).

#[export] Instance float_scalar : Scalar float := {
  f_of_Z := float_of_Z;
  f_add := PrimFloat.add;
  f_sub := PrimFloat.sub;
  f_mul := PrimFloat.mul;
  f_div := PrimFloat.div;
  f_sqrt := PrimFloat.sqrt;
  f_max := fun a b => if PrimFloat.ltb a b then b else a
}.

#[export] Instance real_scalar : Scalar R := {
  f_of_Z := IZR;
  f_add := Rplus;
  f_sub := Rminus;
  f_mul := Rmult;
  f_div := Rdiv;
  f_sqrt := sqrt;
  f_max := Rmax
}.

(** ** Exceptions and references *)

(** The exceptions the modelled code can raise.  [InvalidReference] is not a
    Python exception: it is what the model answers when a reference is not
    allocated on the heap, which no Python program can observe. *)
Inductive exn : Type :=
| AssertionError
| IndexError
| ValueError
| ZeroDivisionError
| InvalidReference.

Inductive outcome (A : Type) : Type :=
| Ok (a : A)
| Raise (e : exn).
Arguments Ok {A} a.
Arguments Raise {A} e.

(** References to arrays. *)
Definition loc := positive.

(** The range of a [for k in range(lo, hi)] loop. *)
Definition py_range (lo hi : Z) : list Z :=
  map (fun k => lo + Z.of_nat k) (seq 0 (Z.to_nat (hi - lo))).

(** ** Arrays *)

Section Arrays.
Context {F : Type} `{Scalar F}.

(** A one-dimensional array is the list of its entries.  A two-dimensional
    array is kept by columns, the only way the code reads and writes it
    ([Uhat[:, i]], [X[:, j]]); [nrows] keeps the first dimension, which the
    list of columns loses when there is no column. *)
Record matrix : Type := Matrix { nrows : nat; columns : list (list F) }.

(** numpy arrays are rectangular. *)
Definition rectangular (A : matrix) : Prop :=
  Forall (fun c => length c = nrows A) (columns A).

(** [a.shape] for a one- and a two-dimensional array. *)
Definition shape1 (a : list F) : Z := Z.of_nat (length a).
Definition shape2 (A : matrix) : Z * Z :=
  (Z.of_nat (nrows A), Z.of_nat (length (columns A))).

(** [c * a], [a / c], [a + b], [a - b] on arrays of one length. *)
Definition scale (c : F) (a : list F) : list F := map (f_mul c) a.
Definition vdiv (a : list F) (c : F) : list F := map (fun e => f_div e c) a.
Definition vadd (a b : list F) : list F := zip_with f_add a b.
Definition vsub (a b : list F) : list F := zip_with f_sub a b.

(** The sum of the entrywise products, accumulated from zero.  (The order in
    which numpy adds the products is the BLAS library's; the model adds them
    from left to right.) *)
Definition dot (a b : list F) : F :=
  fold_left f_add (zip_with f_mul a b) (f_of_Z 0).

(** [np.zeros(n)] *)
Definition zeros (n : nat) : list F := repeat (f_of_Z 0) n.

End Arrays.
Arguments matrix F : clear implicits.

(** ** The heap and the monad *)

Section Model.
Context {F : Type} `{Scalar F}.

(** [G] is the state of numpy's global random generator. *)
Context {G : Type}.

(** The heap: the one-dimensional arrays, the two-dimensional arrays (a
    reference is to one or the other) and the random generator. *)
Record heap : Type := Heap {
  vecs : gmap loc (list F);
  mats : gmap loc (matrix F);
  rng : G
}.

(** A computation runs on a heap and ends with a value or an exception, and
    with the heap as it is then. *)
Definition M (A : Type) : Type := heap -> outcome A * heap.

Definition ret {A : Type} (a : A) : M A := fun h => (Ok a, h).

Definition raise {A : Type} (e : exn) : M A := fun h => (Raise e, h).

Definition bind {A B : Type} (m : M A) (k : A -> M B) : M B :=
  fun h =>
    match m h with
    | (Ok a, h') => k a h'
    | (Raise e, h') => (Raise e, h')
    end.

Notation "x <- m ;; k" := (bind m (fun x => k))
  (at level 100, m at next level, right associativity).
Notation "m ;; k" := (bind m (fun _ => k))
  (at level 100, right associativity).

(** [for a in xs: s = body(a, s)], with [s] the variables the body rebinds. *)
Fixpoint for_each {A S : Type} (xs : list A) (body : A -> S -> M S) (s : S)
  : M S :=
  match xs with
  | [] => ret s
  | a :: xs' => s' <- body a s ;; for_each xs' body s'
  end.

(** [assert c] *)
Definition py_assert (c : bool) : M unit :=
  if c then ret tt else raise AssertionError.

(** [a / b] on Python ints: true division, an exception when [b] is 0.
    The quotient is taken on the two converted operands, which is Python's
    correctly rounded quotient as long as both convert exactly. *)
Definition py_truediv (a b : Z) : M F :=
  if b =? 0 then raise ZeroDivisionError
  else ret (f_div (f_of_Z a) (f_of_Z b)).

(** [t % n] on Python ints, for [n >= 0]. *)
Definition py_mod (t n : Z) : M Z :=
  if n =? 0 then raise ZeroDivisionError else ret (t mod n).

Definition get_vec (l : loc) : M (list F) :=
  fun h =>
    match vecs h !! l with
    | Some a => (Ok a, h)
    | None => (Raise InvalidReference, h)
    end.

Definition set_vec (l : loc) (a : list F) : M unit :=
  fun h => (Ok tt, Heap (<[l := a]> (vecs h)) (mats h) (rng h)).

(** A new one-dimensional array, at a reference not in use. *)
Definition new_vec (a : list F) : M loc :=
  fun h =>
    let l := fresh (dom (vecs h)) in
    (Ok l, Heap (<[l := a]> (vecs h)) (mats h) (rng h)).

Definition get_mat (l : loc) : M (matrix F) :=
  fun h =>
    match mats h !! l with
    | Some A => (Ok A, h)
    | None => (Raise InvalidReference, h)
    end.

Definition set_mat (l : loc) (A : matrix F) : M unit :=
  fun h => (Ok tt, Heap (vecs h) (<[l := A]> (mats h)) (rng h)).

Definition new_mat (A : matrix F) : M loc :=
  fun h =>
    let l := fresh (dom (mats h)) in
    (Ok l, Heap (vecs h) (<[l := A]> (mats h)) (rng h)).

(** [a.copy()] *)
Definition copy_vec (l : loc) : M loc := a <- get_vec l ;; new_vec a.
Definition copy_mat (l : loc) : M loc := A <- get_mat l ;; new_mat A.

(** [a[i]] *)
Definition vec_getitem (l : loc) (i : nat) : M F :=
  a <- get_vec l ;;
  match a !! i with
  | Some e => ret e
  | None => raise IndexError
  end.

(** [a[i] = e] *)
Definition vec_setitem (l : loc) (i : nat) (e : F) : M unit :=
  a <- get_vec l ;;
  if (i <? length a)%nat then set_vec l (<[i := e]> a) else raise IndexError.

(** The entries of [A[:, i]], read now. *)
Definition mat_getcolumn (l : loc) (i : nat) : M (list F) :=
  A <- get_mat l ;;
  match columns A !! i with
  | Some c => ret c
  | None => raise IndexError
  end.

(** [A[:, i] = c].  numpy would stretch a [c] of length one over the column;
    the code below only assigns a [c] computed from the column it replaces,
    which has the column's length. *)
Definition mat_setcolumn (l : loc) (i : nat) (c : list F) : M unit :=
  A <- get_mat l ;;
  if (i <? length (columns A))%nat then
    if (length c =? nrows A)%nat
    then set_mat l (Matrix (nrows A) (<[i := c]> (columns A)))
    else raise ValueError
  else raise IndexError.

(** [np.dot(a, b)] and [a.dot(b)] on one-dimensional arrays. *)
Definition np_dot (a b : list F) : M F :=
  if (length a =? length b)%nat then ret (dot a b) else raise ValueError.

(** [np.zeros(n)] *)
Definition np_zeros (n : Z) : M loc :=
  if n <? 0 then raise ValueError else new_vec (zeros (Z.to_nat n)).

(** *** Random draws

    [np.random.normal(loc, scale, size)] reads and advances the global
    generator.  What it draws is left open: [random_normal1 m s n g] are the
    [n] values and the next generator state, [random_normal2 m s d q g] the
    same for a d-by-q array.  A negative dimension is refused. *)
Variable random_normal1 : F -> F -> nat -> G -> list F * G.
Variable random_normal2 : F -> F -> nat -> nat -> G -> matrix F * G.

Definition np_random_normal1 (m s : F) (n : Z) : M (list F) :=
  fun h =>
    if n <? 0 then (Raise ValueError, h)
    else
      let (a, g) := random_normal1 m s (Z.to_nat n) (rng h) in
      (Ok a, Heap (vecs h) (mats h) g).

Definition np_random_normal2 (m s : F) (d q : Z) : M (matrix F) :=
  fun h =>
    if (d <? 0) || (q <? 0) then (Raise ValueError, h)
    else
      let (A, g) := random_normal2 m s (Z.to_nat d) (Z.to_nat q) (rng h) in
      (Ok A, Heap (vecs h) (mats h) g).

(** ** The estimator *)

(** The attributes of a [CCIPCA_CLASS] instance.  [self_Uhat], [self_lambda_]
    and [self_v] are references: the arrays live on the heap.  The counter
    [t], the dimensions and [ell] are Python ints ([ell] as its default 2
    is). *)
Record CCIPCA_CLASS : Type := {
  self_Uhat : loc;
  self_t : Z;
  self_lambda_ : loc;
  self_q : Z;
  self_d : Z;
  self_ell : Z;
  self_cython : bool;
  self_v : loc
}.

Definition shape2_eqb (s1 s2 : Z * Z) : bool :=
  (fst s1 =? fst s2) && (snd s1 =? snd s2).

(** The block that [__init__] and [CCIPCA] both start with: a copy of the
    caller's initial guess [Uhat0], whose shape must be [(d, q)], or a
    random d-by-q array of scale [1 / d]. *)
Definition init_Uhat (q d : Z) (Uhat0 : option loc) : M loc :=
  match Uhat0 with
  | Some U0 =>
      A <- get_mat U0 ;;
      py_assert (shape2_eqb (shape2 A) (d, q)) ;;
      new_mat A
  | None =>
      s <- py_truediv 1 d ;;
      A <- np_random_normal2 (f_of_Z 0) s d q ;;
      new_mat A
  end.

(** Their second block: a copy of [lambda0], whose shape must be [(q,)], or
    [np.random.normal(0, 1, (q,)) / np.sqrt(q)]. *)
Definition init_lambda_ (q : Z) (lambda0 : option loc) : M loc :=
  match lambda0 with
  | Some l0 =>
      a <- get_vec l0 ;;
      py_assert (shape1 a =? q) ;;
      new_vec a
  | None =>
      a <- np_random_normal1 (f_of_Z 0) (f_of_Z 1) q ;;
      new_vec (vdiv a (f_sqrt (f_of_Z q)))
  end.

(** [CCIPCA_CLASS.__init__(self, q, d, Uhat0=None, lambda0=None, ell=2,
    cython=True)].  The value is the instance the constructor call gives
    its caller; when [__init__] raises there is none. *)
Definition __init__ (q d : Z) (Uhat0 lambda0 : option loc) (ell : Z)
    (cython : bool) : M CCIPCA_CLASS :=
  Uhat <- init_Uhat q d Uhat0 ;;
  let t := 1 in
  lambda_ <- init_lambda_ q lambda0 ;;
  v <- np_zeros d ;;
  ret {| self_Uhat := Uhat; self_t := t; self_lambda_ := lambda_;
         self_q := q; self_d := d; self_ell := ell; self_cython := cython;
         self_v := v |}.

(** The defaults of the keyword arguments. *)
Definition default_ell : Z := 2.
Definition default_cython : bool := true.
Definition default_in_place : bool := false.
Definition default_n_epoch : Z := 1.

(** The compiled kernels of module [coord_update], which the source file
    only calls: [coord_update(x, d, t, ell, lambda_, Uhat, q, v)] and
    [coord_update_total(X, n, d, t, ell, lambda_, Uhat, q, v)], both
    answering the pair [(Uhat, lambda_)]. *)
Variable coord_update :
  loc -> Z -> F -> F -> loc -> loc -> Z -> loc -> M (loc * loc).
Variable coord_update_total :
  loc -> Z -> Z -> F -> F -> loc -> loc -> Z -> loc -> M (loc * loc).

Definition set_arrays (self : CCIPCA_CLASS) (Uhat lambda_ : loc)
  : CCIPCA_CLASS :=
  {| self_Uhat := Uhat; self_t := self_t self; self_lambda_ := lambda_;
     self_q := self_q self; self_d := self_d self; self_ell := self_ell self;
     self_cython := self_cython self; self_v := self_v self |}.

Definition set_t (self : CCIPCA_CLASS) (t : Z) : CCIPCA_CLASS :=
  {| self_Uhat := self_Uhat self; self_t := t;
     self_lambda_ := self_lambda_ self;
     self_q := self_q self; self_d := self_d self; self_ell := self_ell self;
     self_cython := self_cython self; self_v := self_v self |}.

(** [CCIPCA_CLASS.fit(self, X)] *)
Definition fit (self : CCIPCA_CLASS) (X : loc) : M CCIPCA_CLASS :=
  A <- get_mat X ;;
  r <- coord_update_total X (snd (shape2 A)) (self_d self)
         (f_of_Z (self_t self)) (f_of_Z (self_ell self))
         (self_lambda_ self) (self_Uhat self) (self_q self) (self_v self) ;;
  ret (set_arrays self (fst r) (snd r)).

(** The body of the loop [for i in range(q)] of [fit_next]: it assigns
    [lambda_[i]] and [Uhat[:, i]] in place and rebinds [x] to a new array. *)
Definition fit_next_column (t ell : Z) (lambda_ Uhat : loc) (i : nat)
    (x : loc) : M loc :=
  a <- py_truediv (Z.max 1 (t - ell)) (t + 1) ;;
  li <- vec_getitem lambda_ i ;;
  ui <- mat_getcolumn Uhat i ;;
  b <- py_truediv (1 + ell) (t + 1) ;;
  xv <- get_vec x ;;
  c <- np_dot xv ui ;;
  let v := vadd (scale (f_mul a li) ui) (scale (f_mul b c) xv) in
  vv <- np_dot v v ;;
  vec_setitem lambda_ i (f_sqrt vv) ;;
  li' <- vec_getitem lambda_ i ;;
  mat_setcolumn Uhat i (vdiv v li') ;;
  xv' <- get_vec x ;;
  ui' <- mat_getcolumn Uhat i ;;
  c' <- np_dot xv' ui' ;;
  new_vec (vsub xv' (scale c' ui')).

(** [CCIPCA_CLASS.fit_next(self, x_, in_place=False)].  The value is [self]
    after the call; when the call raises, the attributes of [self] are as
    before it (they are assigned last), and the heap is as the exception
    left it. *)
Definition fit_next (self : CCIPCA_CLASS) (x_ : loc) (in_place : bool)
  : M CCIPCA_CLASS :=
  x <- (if negb in_place then copy_vec x_ else ret x_) ;;
  xv <- get_vec x ;;
  py_assert (shape1 xv =? self_d self) ;;
  self' <- (if self_cython self then
              r <- coord_update x (self_d self) (f_of_Z (self_t self))
                     (f_of_Z (self_ell self)) (self_lambda_ self)
                     (self_Uhat self) (self_q self) (self_v self) ;;
              ret (set_arrays self (fst r) (snd r))
            else
              let t := self_t self in
              let ell := self_ell self in
              let lambda_ := self_lambda_ self in
              let Uhat := self_Uhat self in
              let q := self_q self in
              for_each (seq 0 (Z.to_nat q))
                (fit_next_column t ell lambda_ Uhat) x ;;
              ret (set_arrays self Uhat lambda_)) ;;
  ret (set_t self' (self_t self' + 1)).

(** ** The streaming driver *)

(** The body of the inner loop of [_iterate]. *)
Definition _iterate_column (t ell : Z) (lambda_ Uhat : loc) (i : nat)
    (x : loc) : M loc :=
  a <- py_truediv (Z.max (t - ell) 1) (t + 1) ;;
  li <- vec_getitem lambda_ i ;;
  ui <- mat_getcolumn Uhat i ;;
  b <- py_truediv (1 + ell) (t + 1) ;;
  xv <- get_vec x ;;
  c <- np_dot xv ui ;;
  let v := vadd (scale (f_mul a li) ui) (scale (f_mul b c) xv) in
  vv <- np_dot v v ;;
  vec_setitem lambda_ i (f_sqrt vv) ;;
  li' <- vec_getitem lambda_ i ;;
  mat_setcolumn Uhat i (vdiv v li') ;;
  xv' <- get_vec x ;;
  ui' <- mat_getcolumn Uhat i ;;
  c' <- np_dot xv' ui' ;;
  new_vec (vsub xv' (scale c' ui')).

(** [x = X[:, j]].  The view is kept as an array of its own: nothing writes
    to [X] or to [x] while the view is in use. *)
Definition view_column (X : loc) (j : Z) : M loc :=
  xv <- mat_getcolumn X (Z.to_nat j) ;;
  new_vec xv.

(** [_iterate(X, lambda_, Uhat, ell, n_its, n, q)] *)
Definition _iterate (X lambda_ Uhat : loc) (ell n_its n q : Z) : M loc :=
  for_each (py_range 1 n_its)
    (fun t (_ : unit) =>
       j <- py_mod t n ;;
       x <- view_column X j ;;
       for_each (seq 0 (Z.to_nat q)) (_iterate_column t ell lambda_ Uhat) x ;;
       ret tt) tt ;;
  ret Uhat.

(** The error bookkeeping of module [util], which the source file only
    calls: [initialize_errors(error_options, n_its)] makes the container
    and [compute_errors(error_options, Uhat, t, errs)] fills it in. *)
Context {Opts Errs : Type}.
Variable initialize_errors : Opts -> Z -> M Errs.
Variable compute_errors : Opts -> loc -> Z -> Errs -> M unit.

(** The body of the inner loop of [_iterate_and_compute_errors]. *)
Definition _iterate_and_compute_errors_column (t ell : Z)
    (lambda_ Uhat : loc) (i : nat) (x : loc) : M loc :=
  a <- py_truediv (Z.max 1 (t - ell)) (t + 1) ;;
  li <- vec_getitem lambda_ i ;;
  ui <- mat_getcolumn Uhat i ;;
  b <- py_truediv (1 + ell) (t + 1) ;;
  xv <- get_vec x ;;
  c <- np_dot xv ui ;;
  let v := vadd (scale (f_mul a li) ui) (scale (f_mul b c) xv) in
  vv <- np_dot v v ;;
  vec_setitem lambda_ i (f_sqrt vv) ;;
  li' <- vec_getitem lambda_ i ;;
  mat_setcolumn Uhat i (vdiv v li') ;;
  xv' <- get_vec x ;;
  ui' <- mat_getcolumn Uhat i ;;
  c' <- np_dot xv' ui' ;;
  new_vec (vsub xv' (scale c' ui')).

(** [_iterate_and_compute_errors(X, lambda_, Uhat, ell, n_its, n, q,
    error_options)] *)
Definition _iterate_and_compute_errors (X lambda_ Uhat : loc)
    (ell n_its n q : Z) (error_options : Opts) : M Errs :=
  errs <- initialize_errors error_options n_its ;;
  for_each (py_range 1 n_its)
    (fun t (_ : unit) =>
       j <- py_mod t n ;;
       compute_errors error_options Uhat t errs ;;
       x <- view_column X j ;;
       for_each (seq 0 (Z.to_nat q))
         (_iterate_and_compute_errors_column t ell lambda_ Uhat) x ;;
       ret tt) tt ;;
  ret errs.

(** What a call can give back: a reference to an array, a pair, or the
    container of the errors. *)
Inductive pyval : Type :=
| PyMatrix (l : loc)
| PyVector (l : loc)
| PyTuple (a b : pyval)
| PyErrs (e : Errs).

(** [CCIPCA(X, q, n_epoch=1, error_options=None, Uhat0=None, lambda0=None,
    ell=2)] *)
Definition CCIPCA (X : loc) (q n_epoch : Z) (error_options : option Opts)
    (Uhat0 lambda0 : option loc) (ell : Z) : M pyval :=
  A <- get_mat X ;;
  let d := fst (shape2 A) in
  let n := snd (shape2 A) in
  Uhat <- init_Uhat q d Uhat0 ;;
  lambda_ <- init_lambda_ q lambda0 ;;
  let n_its := n_epoch * n in
  match error_options with
  | Some o =>
      errs <- _iterate_and_compute_errors X lambda_ Uhat ell n_its n q o ;;
      ret (PyErrs errs)
  | None =>
      U <- _iterate X lambda_ Uhat ell n_its n q ;;
      ret (PyMatrix U)
  end.

End Model.
Arguments heap : clear implicits.
Arguments M : clear implicits.
Arguments pyval : clear implicits.
Arguments PyMatrix {Errs} l.
Arguments PyVector {Errs} l.
Arguments PyTuple {Errs} a b.
Arguments PyErrs {Errs} e.



(** ** The update rule as the specification words it *)

Section Spec.
Context {F : Type} `{Scalar F}.

(** [age_weight = max(1, t - ell) / (t + 1)] and
    [new_weight = (1 + ell) / (t + 1)] *)
Definition age_weight (t ell : Z) : F :=
  f_div (f_of_Z (Z.max 1 (t - ell))) (f_of_Z (t + 1)).
Definition new_weight (t ell : Z) : F :=
  f_div (f_of_Z (1 + ell)) (f_of_Z (t + 1)).

(** [v = age_weight * lambda[i] * Uhat[:,i]
       + new_weight * dot(x, Uhat[:,i]) * x] *)
Definition provisional (t ell : Z) (li : F) (ui x : list F) : list F :=
  vadd (scale (f_mul (age_weight t ell) li) ui)
       (scale (f_mul (new_weight t ell) (dot x ui)) x).

(** The Euclidean norm. *)
Definition norm (v : list F) : F := f_sqrt (dot v v).

(** [x - dot(x, u) * u] *)
Definition deflate (x u : list F) : list F := vsub x (scale (dot x u) u).

(** The eigenvalue estimates, the eigenvector estimates and the working copy
    of the sample. *)
Definition estimate : Type := list F * matrix F * list F.

(** Steps 2 to 5 for column [i]. *)
Definition spec_step (t ell : Z) (s : estimate) (i : nat) : estimate :=
  let '(lv, A, x) := s in
  match lv !! i, columns A !! i with
  | Some li, Some ui =>
      let v := provisional t ell li ui x in
      let li' := norm v in
      let ui' := vdiv v li' in
      (<[i := li']> lv, Matrix (nrows A) (<[i := ui']> (columns A)),
       deflate x ui')
  | _, _ => s
  end.

(** Columns [0] to [q - 1], in increasing order. *)
Definition spec_update (t ell : Z) (q : nat) (s : estimate) : estimate :=
  fold_left (spec_step t ell) (seq 0 q) s.

(** One sample [x] absorbed at counter [t]: the estimates after it. *)
Definition absorb (ell : Z) (q : nat) (lA : list F * matrix F) (t : Z)
    (x : list F) : list F * matrix F :=
  fst (spec_update t ell q (fst lA, snd lA, x)).

(** Column [j] of a matrix (empty when there is none). *)
Definition column (A : matrix F) (j : Z) : list F :=
  default [] (columns A !! Z.to_nat j).

(** The samples the loop header [for t in range(1, n_its): j = t % n] of
    the driver visits: the counter [t] and the column [j] of each pass. *)
Definition schedule (n_its n : Z) : list (Z * Z) :=
  map (fun t => (t, t mod n)) (py_range 1 n_its).

(** The estimates after the passes of a schedule over the columns of [X]. *)
Definition absorb_all (ell : Z) (q : nat) (X : matrix F)
    (sched : list (Z * Z)) (lA : list F * matrix F) : list F * matrix F :=
  fold_left (fun s tj => absorb ell q s (fst tj) (column X (snd tj))) sched lA.

(** The schedule of the specification's driver: [n_epoch] passes over the
    columns [0 .. n-1], one update per column, the estimator's counter
    starting at 1. *)
Definition spec_schedule (n_epoch n : Z) : list (Z * Z) :=
  map (fun k => (1 + k, k mod n)) (py_range 0 (n_epoch * n)).

(** *** Well-formed estimators *)

Context {G : Type}.

(** The invariant of an estimator on a heap: [lambda_] has shape [(q,)],
    [Uhat] has shape [(d, q)], and the counter is at least 1. *)
Definition well_formed (self : CCIPCA_CLASS) (h : heap F G) : Prop :=
  exists lv A,
    vecs h !! self_lambda_ self = Some lv /\
    mats h !! self_Uhat self = Some A /\
    shape1 lv = self_q self /\
    shape2 A = (self_d self, self_q self) /\
    rectangular A /\
    1 <= self_t self.

(** The arrays an estimator holds on a heap. *)
Definition arrays_of (self : CCIPCA_CLASS) (h : heap F G)
  : option (list F * matrix F) :=
  match vecs h !! self_lambda_ self, mats h !! self_Uhat self with
  | Some lv, Some A => Some (lv, A)
  | _, _ => None
  end.

(** [after_calls n self self']: [self'] is [self] after [n] calls of
    [fit_next] that all returned, whatever the samples, the flags and what
    the caller did to the heap between the calls. *)
Inductive after_calls
    (coord_update :
       loc -> Z -> F -> F -> loc -> loc -> Z -> loc -> M F G (loc * loc))
  : nat -> CCIPCA_CLASS -> CCIPCA_CLASS -> Prop :=
| calls_0 self : after_calls coord_update 0 self self
| calls_S n self self1 self2 x_ in_place h h' :
    after_calls coord_update n self self1 ->
    fit_next coord_update self1 x_ in_place h = (Ok self2, h') ->
    after_calls coord_update (S n) self self2.

(** The Euclidean norm of column [i] of [Uhat] is 1. *)
Definition unit_column (one : F) (A : matrix F) (i : nat) : Prop :=
  exists c, columns A !! i = Some c /\ norm c = one.

(** The heap after column [i] has been updated from [h]. *)
Definition after_column (t ell : Z) (lam U : loc) (i : nat) (x : loc)
    (h : heap F G) (lv : list F) (A : matrix F) (xv : list F) (li : F)
    (ui : list F) : loc * heap F G :=
  let v := provisional t ell li ui xv in
  let li' := norm v in
  let ui' := vdiv v li' in
  let vecs1 := <[lam := <[i := li']> lv]> (vecs h) in
  let x' := fresh (dom vecs1) in
  (x', Heap (<[x' := deflate xv ui']> vecs1)
            (<[U := Matrix (nrows A) (<[i := ui']> (columns A))]> (mats h))
            (rng h)).

(** The shapes the updates keep: as many eigenvalues as columns, and
    columns of length [d]. *)
Definition est_shaped (d : nat) (lA : list F * matrix F) : Prop :=
  length (fst lA) = length (columns (snd lA)) /\
  rectangular (snd lA) /\
  nrows (snd lA) = d.

(** The same with the working copy of the sample, of length [d]. *)
Definition shaped (d : nat) (s : estimate) : Prop :=
  est_shaped d (fst s) /\ length (snd s) = d.

(** What the loop over the columns leaves: on the heap [h'] the estimator's
    arrays and the working copy [x'] hold the estimate [s]; every other
    array of the heap [h] it started from is as it was. *)
Definition loop_post (lam U : loc) (h : heap F G) (x' : loc)
    (h' : heap F G) (s : estimate) : Prop :=
  vecs h' !! lam = Some (fst (fst s)) /\
  mats h' !! U = Some (snd (fst s)) /\
  vecs h' !! x' = Some (snd s) /\
  x' <> lam /\
  (forall l, l <> lam -> is_Some (vecs h !! l) ->
             vecs h' !! l = vecs h !! l) /\
  (forall l, l <> U -> mats h' !! l = mats h !! l) /\
  rng h' = rng h.

(** What a sequence of updates leaves: on the heap [h'] the estimator's
    arrays hold [lA]; every other array of the heap [h] is as it was. *)
Definition est_post (lam U : loc) (h h' : heap F G)
    (lA : list F * matrix F) : Prop :=
  vecs h' !! lam = Some (fst lA) /\
  mats h' !! U = Some (snd lA) /\
  (forall l, l <> lam -> is_Some (vecs h !! l) ->
             vecs h' !! l = vecs h !! l) /\
  (forall l, l <> U -> mats h' !! l = mats h !! l) /\
  rng h' = rng h.

(** [writes_only L m]: whatever [m] does, the one-dimensional arrays of the
    heap it starts on that are not in [L] are the same when it ends. *)
Definition writes_only {B : Type} (L : list loc) (m : M F G B) : Prop :=
  forall h r h',
    m h = (r, h') ->
    forall l, l ∉ L -> is_Some (vecs h !! l) -> vecs h' !! l = vecs h !! l.

(** A kernel that writes to no one-dimensional array but those it is
    handed: the sample [x], [lambda_] and the scratch array [v]. *)
Definition kernel_frame
    (coord_update :
       loc -> Z -> F -> F -> loc -> loc -> Z -> loc -> M F G (loc * loc))
  : Prop :=
  forall x d t ell lambda_ Uhat q v,
    writes_only [x; lambda_; v] (coord_update x d t ell lambda_ Uhat q v).

End Spec.

(** ** The kernels, from their contract *)

Section Kernels.
Context {F : Type} `{Scalar F} {G : Type}.

Notation "x <- m ;; k" := (bind m (fun x => k))
  (at level 100, m at next level, right associativity).
Notation "m ;; k" := (bind m (fun _ => k))
  (at level 100, right associativity).

(** Modelled from the spec: the update of one column inside the compiled
    kernels of module [coord_update], which is not part of the source file.
    The kernels offer "the exact update math" of the single-sample update;
    they receive [t] and [ell] as doubles, so the weights are computed in
    floating point and no division raises. *)
Definition kernel_column (t ell : F) (lambda_ Uhat : loc) (i : nat)
    (x : loc) : M F G loc :=
  let a := f_div (f_max (f_of_Z 1) (f_sub t ell)) (f_add t (f_of_Z 1)) in
  li <- vec_getitem lambda_ i ;;
  ui <- mat_getcolumn Uhat i ;;
  let b := f_div (f_add (f_of_Z 1) ell) (f_add t (f_of_Z 1)) in
  xv <- get_vec x ;;
  c <- np_dot xv ui ;;
  let v := vadd (scale (f_mul a li) ui) (scale (f_mul b c) xv) in
  vv <- np_dot v v ;;
  vec_setitem lambda_ i (f_sqrt vv) ;;
  li' <- vec_getitem lambda_ i ;;
  mat_setcolumn Uhat i (vdiv v li') ;;
  xv' <- get_vec x ;;
  ui' <- mat_getcolumn Uhat i ;;
  c' <- np_dot xv' ui' ;;
  new_vec (vsub xv' (scale c' ui')).

(** Modelled from the spec: [coord_update.coord_update], the optimized
    single-sample kernel, "the same mathematical contract" as the portable
    path of [fit_next]. *)
Definition spec_coord_update (x : loc) (d : Z) (t ell : F)
    (lambda_ Uhat : loc) (q : Z) (v : loc) : M F G (loc * loc) :=
  for_each (seq 0 (Z.to_nat q)) (kernel_column t ell lambda_ Uhat) x ;;
  ret (Uhat, lambda_).

(** Modelled from the spec: [coord_update.coord_update_total], the batch
    kernel, "conceptually equivalent to invoking the single-sample update
    for each column in order (column 0, 1, ..., n-1)", the weights taking
    the counter [t + j] at column [j]. *)
Definition spec_coord_update_total (X : loc) (n d : Z) (t ell : F)
    (lambda_ Uhat : loc) (q : Z) (v : loc) : M F G (loc * loc) :=
  for_each (py_range 0 n)
    (fun j (_ : unit) =>
       x <- view_column X j ;;
       for_each (seq 0 (Z.to_nat q))
         (kernel_column (f_add t (f_of_Z j)) ell lambda_ Uhat) x ;;
       ret tt) tt ;;
  ret (Uhat, lambda_).

End Kernels.

(** The columns updated so far ([i < k]) whose eigenvalue is not zero have
    unit norm. *)
Definition unit_upto (k : nat) (s : @estimate R) : Prop :=
  forall (i : nat) (li : R),
    (i < k)%nat -> fst (fst s) !! i = Some li -> li <> 0%R ->
    unit_column 1%R (snd (fst s)) i.


(** ** Concrete estimators *)

(** Heaps of binary64 arrays, for running the code.  The generator is a
    stand-in that draws the mean every time; the kernels are the ones
    modelled from their contract. *)
Module Floats.

Definition G : Type := unit.

Definition random_normal1 (m s : float) (n : nat) (g : G) : list float * G :=
  (repeat m n, g).

Definition random_normal2 (m s : float) (d q : nat) (g : G)
  : matrix float * G :=
  (Matrix d (repeat (repeat m d) q), g).

Definition coord_update
  : loc -> Z -> float -> float -> loc -> loc -> Z -> loc
    -> M float G (loc * loc) :=
  spec_coord_update.

Definition coord_update_total
  : loc -> Z -> Z -> float -> float -> loc -> loc -> Z -> loc
    -> M float G (loc * loc) :=
  spec_coord_update_total.

(** An evaluator for the examples: the container is an array of [n_its]
    zeros, and an evaluation leaves it as it is. *)
Definition Opts : Type := unit.
Definition Errs : Type := loc.
Definition initialize_errors (o : Opts) (n_its : Z) : M float G Errs :=
  np_zeros n_its.
Definition compute_errors (o : Opts) (Uhat : loc) (t : Z) (errs : Errs)
  : M float G unit :=
  ret tt.

(** A scenario like the specification's: [d = 4], [q = 2], a 4-by-5 sample
    matrix [X], its first two columns (two vectors of the basis) as initial
    guess, [lambda0 = [1, 1]], [ell = 2]. *)
Definition X_cols : list (list float) :=
  [ [1; 0; 0; 0]; [0; 1; 0; 0]; [1; 1; 0; 0]; [0; 1; 1; 0]; [1; 0; 0; 1] ]%float.

Definition X : loc := 1%positive.
Definition Uhat0 : loc := 2%positive.
Definition lambda0 : loc := 1%positive.
Definition sample : loc := 2%positive.

Definition scratch : loc := 3%positive.

Definition h0 : heap float G :=
  Heap (<[lambda0 := [1; 1]%float]>
          (<[sample := [3; 4; 0; 0]%float]> (<[scratch := zeros 4]> ∅)))
       (<[X := Matrix 4 X_cols]>
          (<[Uhat0 := Matrix 4 (take 2 X_cols)]> ∅))
       tt.

(** An estimator that holds the initial guesses themselves, on the portable
    path and on the optimized one. *)
Definition self0 : CCIPCA_CLASS :=
  {| self_Uhat := Uhat0; self_t := 1; self_lambda_ := lambda0;
     self_q := 2; self_d := 4; self_ell := 2; self_cython := false;
     self_v := scratch |}.

Definition self0_cython : CCIPCA_CLASS :=
  {| self_Uhat := Uhat0; self_t := 1; self_lambda_ := lambda0;
     self_q := 2; self_d := 4; self_ell := 2; self_cython := true;
     self_v := scratch |}.

(** The heap after a first call [fit_next(sample)] on [self0]. *)
Definition h1 : heap float G :=
  snd (fit_next coord_update self0 sample false h0).

(** A degenerate start: the eigenvalue guess is zero and the sample is
    orthogonal to the eigenvector guess. *)
Definition h_zero : heap float G :=
  Heap (<[lambda0 := [0]%float]>
          (<[sample := [0; 1]%float]> (<[scratch := zeros 2]> ∅)))
       (<[Uhat0 := Matrix 2 [[1; 0]%float]]> ∅)
       tt.

Definition self_zero : CCIPCA_CLASS :=
  {| self_Uhat := Uhat0; self_t := 1; self_lambda_ := lambda0;
     self_q := 1; self_d := 2; self_ell := 2; self_cython := false;
     self_v := scratch |}.

(** Initial guesses with no column, and with more columns than rows. *)
Definition h_shapes : heap float G :=
  Heap (<[1%positive := []]> (<[2%positive := [1; 1]%float]> ∅))
       (<[1%positive := Matrix 1 []]>
          (<[2%positive := Matrix 1 [[1]; [1]]%float]> ∅))
       tt.

(** [|norm - 1| <= tol] *)
Definition unit_within (tol : float) (c : list float) : bool :=
  PrimFloat.leb (PrimFloat.abs (PrimFloat.sub (norm c) 1)) tol.

End Floats.

(** A heap of real arrays: [d = 2], [q = 1]. *)
Module Reals.

Definition G : Type := unit.

Definition h0 : heap R G :=
  Heap (<[1%positive := [1%R]]>
          (<[2%positive := [3%R; 4%R]]> (<[3%positive := zeros 2]> ∅)))
       (<[1%positive := Matrix 2 [[1%R; 0%R]]]> ∅)
       tt.

Definition self0 : CCIPCA_CLASS :=
  {| self_Uhat := 1%positive; self_t := 1; self_lambda_ := 1%positive;
     self_q := 1; self_d := 2; self_ell := 2; self_cython := false;
     self_v := 3%positive |}.

End Reals.

(** ** The loop of the demonstration script *)

Section Script.
Context {F : Type} `{Scalar F} {G : Type}.
Variable coord_update :
  loc -> Z -> F -> F -> loc -> loc -> Z -> loc -> M F G (loc * loc).

Notation "x <- m ;; k" := (bind m (fun x => k))
  (at level 100, m at next level, right associativity).

(** [for n_e in range(n_epoch): for x in X1.T: ccipca.fit_next(x,
    in_place=True)], the loop the script runs on each of its estimators.
    [X1.T] yields the columns of [X1] in order, as views; a view is kept as
    an array of its own, which is what the portable path sees of it
    (nothing there writes to the sample). *)
Definition feed_epochs (ccipca : CCIPCA_CLASS) (X1 : loc) (n_epoch : Z)
  : M F G CCIPCA_CLASS :=
  for_each (py_range 0 n_epoch)
    (fun n_e self =>
       A <- get_mat X1 ;;
       for_each (py_range 0 (snd (shape2 A)))
         (fun j self' =>
            x <- view_column X1 j ;;
            fit_next coord_update self' x true)
         self)
    ccipca.

(** The column indices [js], paired with consecutive counters from [t]. *)
Fixpoint number_from (t : Z) (js : list Z) : list (Z * Z) :=
  match js with
  | [] => []
  | j :: js' => (t, j) :: number_from (t + 1) js'
  end.

(** The samples of [n_epoch] passes over the columns [0 .. n-1], absorbed at
    consecutive counters from [t]. *)
Definition stream_schedule (t n_epoch n : Z) : list (Z * Z) :=
  number_from t (concat (repeat (py_range 0 n) (Z.to_nat n_epoch))).

(** Every column [i < k] of the estimate is a vector divided by its norm,
    and [lambda[i]] is that norm. *)
Definition normalised_upto (k : nat) (lA : list F * matrix F) : Prop :=
  forall i : nat,
    (i < k)%nat ->
    exists v : list F,
      fst lA !! i = Some (norm v) /\
      columns (snd lA) !! i = Some (vdiv v (norm v)).

(** What the generator is asked for: arrays of the requested shape. *)
Definition draws_shaped
    (random_normal1 : F -> F -> nat -> G -> list F * G)
    (random_normal2 : F -> F -> nat -> nat -> G -> matrix F * G) : Prop :=
  (forall m s n g, length (fst (random_normal1 m s n g)) = n) /\
  (forall m s d q g,
      nrows (fst (random_normal2 m s d q g)) = d /\
      length (columns (fst (random_normal2 m s d q g))) = q /\
      rectangular (fst (random_normal2 m s d q g))).

End Script.

(** Heaps for the edge cases: a sample matrix of one column, one of no
    row, and a heap of real arrays that holds a sample and its opposite. *)
Module Edge.

Definition h_single : heap float Floats.G :=
  Heap (<[1%positive := [1; 1]%float]> ∅)
       (<[1%positive := Matrix 4 [[5; 6; 7; 8]%float]]>
          (<[2%positive := Matrix 4 (take 2 Floats.X_cols)]> ∅))
       tt.

Definition h_norow : heap float Floats.G :=
  Heap (<[1%positive := [1; 1]%float]> ∅)
       (<[1%positive := Matrix 0 [[]; []; []]]> ∅)
       tt.

Definition h_signs : heap R Reals.G :=
  Heap (<[1%positive := [1%R]]>
          (<[2%positive := [3%R; 4%R]]>
             (<[3%positive := zeros 2]>
                (<[4%positive := map Ropp [3%R; 4%R]]> ∅))))
       (<[1%positive := Matrix 2 [[1%R; 0%R]]]> ∅)
       tt.

End Edge.

(** ** Running the code *)

Section Run.
Context {F : Type} `{Scalar F} {G : Type}.

Notation "x <- m ;; k" := (bind m (fun x => k))
  (at level 100, m at next level, right associativity).
Notation "m ;; k" := (bind m (fun _ => k))
  (at level 100, right associativity).

Implicit Types (h : heap F G) (x lam U : loc) (lv xv : list F)
  (A : matrix F).

Variable random_normal1 : F -> F -> nat -> G -> list F * G.
Variable random_normal2 : F -> F -> nat -> nat -> G -> matrix F * G.
Variable coord_update :
  loc -> Z -> F -> F -> loc -> loc -> Z -> loc -> M F G (loc * loc).
Variable coord_update_total :
  loc -> Z -> Z -> F -> F -> loc -> loc -> Z -> loc -> M F G (loc * loc).
Context {Opts Errs : Type}.
Variable initialize_errors : Opts -> Z -> M F G Errs.
Variable compute_errors : Opts -> loc -> Z -> Errs -> M F G unit.

Lemma bind_ok {B C : Type} (m : M F G B) (k : B -> M F G C) h b h1 :
  m h = (Ok b, h1) -> bind m k h = k b h1.
Proof. intros E. unfold bind. now rewrite E. Qed.

Lemma bind_raise {B C : Type} (m : M F G B) (k : B -> M F G C) h e h1 :
  m h = (Raise e, h1) -> bind m k h = (Raise e, h1).
Proof. intros E. unfold bind. now rewrite E. Qed.

Lemma bind_inv_ok {B C : Type} (m : M F G B) (k : B -> M F G C) h c h' :
  bind m k h = (Ok c, h') ->
  exists b h1, m h = (Ok b, h1) /\ k b h1 = (Ok c, h').
Proof.
  unfold bind. destruct (m h) as [[b|e] h1]; intros E.
  - now exists b, h1.
  - discriminate.
Qed.

Lemma bind_cong {B C : Type} (m m' : M F G B) (k k' : B -> M F G C) h :
  m h = m' h -> (forall b h1, k b h1 = k' b h1) ->
  bind m k h = bind m' k' h.
Proof.
  intros Em Ek. unfold bind. rewrite Em.
  destruct (m' h) as [[b|e] h1]; [apply Ek | reflexivity].
Qed.

Lemma bind_assoc {B C D : Type} (m : M F G B) (k1 : B -> M F G C)
    (k2 : C -> M F G D) h :
  bind (bind m k1) k2 h = bind m (fun b => bind (k1 b) k2) h.
Proof. unfold bind. destruct (m h) as [[b|e] h1]; reflexivity. Qed.

Lemma length_scale (c : F) (a : list F) : length (scale c a) = length a.
Proof. apply length_map. Qed.

Lemma length_vdiv (a : list F) (c : F) : length (vdiv a c) = length a.
Proof. apply length_map. Qed.

Lemma length_vadd (a b : list F) :
  length a = length b -> length (vadd a b) = length a.
Proof. intros E. unfold vadd. rewrite length_zip_with. lia. Qed.

Lemma length_vsub (a b : list F) :
  length a = length b -> length (vsub a b) = length a.
Proof. intros E. unfold vsub. rewrite length_zip_with. lia. Qed.

Lemma length_provisional t ell li ui xv :
  length xv = length ui -> length (provisional t ell li ui xv) = length ui.
Proof.
  intros E. unfold provisional.
  rewrite length_vadd; rewrite !length_scale; auto.
Qed.

Lemma length_deflate xv (u : list F) :
  length xv = length u -> length (deflate xv u) = length xv.
Proof.
  intros E. unfold deflate. apply length_vsub. now rewrite length_scale.
Qed.

Lemma np_dot_ok (a b : list F) h :
  length a = length b -> np_dot a b h = (Ok (dot a b), h).
Proof.
  intros E. unfold np_dot. rewrite E, Nat.eqb_refl. reflexivity.
Qed.

Lemma py_truediv_ok (a b : Z) h :
  b <> 0 -> py_truediv a b h = (Ok (f_div (f_of_Z a) (f_of_Z b)), h).
Proof.
  intros E. unfold py_truediv.
  destruct (Z.eqb_spec b 0); [contradiction | reflexivity].
Qed.

Lemma get_vec_ok x h xv :
  vecs h !! x = Some xv -> get_vec x h = (Ok xv, h).
Proof. intros E. unfold get_vec. now rewrite E. Qed.

Lemma get_mat_ok U h A :
  mats h !! U = Some A -> get_mat U h = (Ok A, h).
Proof. intros E. unfold get_mat. now rewrite E. Qed.

Lemma vec_getitem_ok lam i h lv li :
  vecs h !! lam = Some lv -> lv !! i = Some li ->
  vec_getitem lam i h = (Ok li, h).
Proof.
  intros E1 E2. unfold vec_getitem.
  rewrite (bind_ok _ _ _ _ _ (get_vec_ok _ _ _ E1)). now rewrite E2.
Qed.

Lemma mat_getcolumn_ok U i h A ui :
  mats h !! U = Some A -> columns A !! i = Some ui ->
  mat_getcolumn U i h = (Ok ui, h).
Proof.
  intros E1 E2. unfold mat_getcolumn.
  rewrite (bind_ok _ _ _ _ _ (get_mat_ok _ _ _ E1)). now rewrite E2.
Qed.

Lemma vec_setitem_ok lam i e h lv :
  vecs h !! lam = Some lv -> (i < length lv)%nat ->
  vec_setitem lam i e h
  = (Ok tt, Heap (<[lam := <[i := e]> lv]> (vecs h)) (mats h) (rng h)).
Proof.
  intros E1 E2. unfold vec_setitem.
  rewrite (bind_ok _ _ _ _ _ (get_vec_ok _ _ _ E1)).
  apply Nat.ltb_lt in E2. now rewrite E2.
Qed.

Lemma mat_setcolumn_ok U i c h A :
  mats h !! U = Some A -> (i < length (columns A))%nat ->
  length c = nrows A ->
  mat_setcolumn U i c h
  = (Ok tt, Heap (vecs h)
               (<[U := Matrix (nrows A) (<[i := c]> (columns A))]> (mats h))
               (rng h)).
Proof.
  intros E1 E2 E3. unfold mat_setcolumn.
  rewrite (bind_ok _ _ _ _ _ (get_mat_ok _ _ _ E1)).
  apply Nat.ltb_lt in E2. rewrite E2, E3, Nat.eqb_refl. reflexivity.
Qed.

Ltac run_step L := erewrite bind_ok by (eapply L; eauto).

Lemma fit_next_column_run t ell lam U i x h lv A xv li ui :
  t + 1 <> 0 ->
  vecs h !! lam = Some lv ->
  mats h !! U = Some A ->
  vecs h !! x = Some xv ->
  x <> lam ->
  lv !! i = Some li ->
  columns A !! i = Some ui ->
  length ui = nrows A ->
  length xv = length ui ->
  fit_next_column t ell lam U i x h
  = (Ok (fst (after_column t ell lam U i x h lv A xv li ui)),
     snd (after_column t ell lam U i x h lv A xv li ui)).
Proof.
  intros Ht Hlam HU Hx Hne Hli Hui Hlen Hxlen.
  assert (Hi : (i < length lv)%nat) by (eapply lookup_lt_Some; eauto).
  assert (Hj : (i < length (columns A))%nat) by (eapply lookup_lt_Some; eauto).
  unfold fit_next_column.
  run_step py_truediv_ok. run_step vec_getitem_ok. run_step mat_getcolumn_ok.
  run_step py_truediv_ok. run_step get_vec_ok. run_step np_dot_ok.
  fold (age_weight t ell) (new_weight t ell).
  fold (provisional t ell li ui xv).
  set (v := provisional t ell li ui xv).
  run_step np_dot_ok. fold (norm v).
  run_step vec_setitem_ok.
  set (h1 := Heap (<[lam := <[i := norm v]> lv]> (vecs h)) (mats h) (rng h)).
  erewrite (bind_ok (vec_getitem lam i) _ h1 (norm v) h1).
  2:{ eapply vec_getitem_ok.
      - simpl. apply lookup_insert_eq.
      - now apply list_lookup_insert_eq. }
  assert (Hv : length (vdiv v (norm v)) = nrows A).
  { rewrite length_vdiv. unfold v. rewrite length_provisional; auto. }
  erewrite (bind_ok (mat_setcolumn U i _) _ h1).
  2:{ eapply mat_setcolumn_ok; eauto. }
  set (A' := Matrix (nrows A) (<[i := vdiv v (norm v)]> (columns A))).
  set (h2 := Heap (vecs h1) (<[U := A']> (mats h1)) (rng h1)).
  erewrite (bind_ok (get_vec x) _ h2 xv h2).
  2:{ apply get_vec_ok. simpl. rewrite lookup_insert_ne; auto. }
  erewrite (bind_ok (mat_getcolumn U i) _ h2 (vdiv v (norm v)) h2).
  2:{ eapply mat_getcolumn_ok.
      - simpl. apply lookup_insert_eq.
      - simpl. now apply list_lookup_insert_eq. }
  erewrite (bind_ok (np_dot xv _) _ h2).
  2:{ apply np_dot_ok. rewrite Hv. congruence. }
  reflexivity.
Qed.

Lemma spec_step_shaped d t ell (s : estimate) i :
  shaped d s -> shaped d (spec_step t ell s i).
Proof.
  destruct s as [[lv A] xv]. intros ((Hl & Hr & Hd) & Hx). simpl in *.
  unfold spec_step.
  destruct (lv !! i) as [li|] eqn:Eli; [| repeat split; auto].
  destruct (columns A !! i) as [ui|] eqn:Eui; [| repeat split; auto].
  assert (Hu : length ui = nrows A).
  { eapply Forall_lookup_1 in Hr; eauto. }
  assert (Hv : length (vdiv (provisional t ell li ui xv)
                         (norm (provisional t ell li ui xv))) = nrows A).
  { rewrite length_vdiv, length_provisional; congruence. }
  repeat split; simpl.
  - now rewrite !length_insert.
  - unfold rectangular. simpl. apply Forall_insert; auto.
  - auto.
  - rewrite length_deflate; congruence.
Qed.

Lemma spec_step_length t ell (s : estimate) i :
  length (fst (fst (spec_step t ell s i))) = length (fst (fst s)).
Proof.
  destruct s as [[lv A] xv]. unfold spec_step.
  destruct (lv !! i); [| reflexivity].
  destruct (columns A !! i); [| reflexivity].
  simpl. apply length_insert.
Qed.

Lemma fresh_allocated (m : gmap loc (list F)) l :
  is_Some (m !! l) -> fresh (dom m) <> l.
Proof.
  intros Hs Heq. apply (is_fresh (dom m)). rewrite Heq.
  now apply elem_of_dom.
Qed.

Lemma column_loop_run t ell lam U (idx : list nat) :
  forall x h lv A xv,
    t + 1 <> 0 ->
    vecs h !! lam = Some lv ->
    mats h !! U = Some A ->
    vecs h !! x = Some xv ->
    x <> lam ->
    shaped (length xv) (lv, A, xv) ->
    Forall (fun i => (i < length lv)%nat) idx ->
    exists x' h',
      for_each idx (fit_next_column t ell lam U) x h = (Ok x', h') /\
      loop_post lam U h x' h' (fold_left (spec_step t ell) idx (lv, A, xv)).
Proof.
  induction idx as [|i idx IH]; intros x h lv A xv Ht Hlam HU Hx Hne Hsh Hidx.
  - exists x, h. split; [reflexivity |].
    repeat split; simpl; auto.
  - apply Forall_cons in Hidx as [Hi Hidx].
    destruct Hsh as ((Hl & Hr & Hd) & _). simpl in Hl, Hr, Hd.
    destruct (lookup_lt_is_Some_2 lv i Hi) as [li Eli].
    assert (Hj : (i < length (columns A))%nat) by lia.
    destruct (lookup_lt_is_Some_2 _ i Hj) as [ui Eui].
    assert (Hu : length ui = nrows A).
    { eapply Forall_lookup_1 in Hr; eauto. }
    assert (Hxu : length xv = length ui) by congruence.
    pose proof (fit_next_column_run t ell lam U i x h lv A xv li ui
                  Ht Hlam HU Hx Hne Eli Eui Hu Hxu) as Hrun.
    set (v := provisional t ell li ui xv) in *.
    set (lv1 := <[i := norm v]> lv).
    set (A1 := Matrix (nrows A) (<[i := vdiv v (norm v)]> (columns A))).
    set (xv1 := deflate xv (vdiv v (norm v))).
    set (vecs1 := <[lam := lv1]> (vecs h)).
    set (x1 := fresh (dom vecs1)).
    set (h1 := Heap (<[x1 := xv1]> vecs1) (<[U := A1]> (mats h)) (rng h)).
    change (fit_next_column t ell lam U i x h = (Ok x1, h1)) in Hrun.
    assert (Hx1lam : x1 <> lam).
    { apply fresh_allocated. unfold vecs1. rewrite lookup_insert_eq. eauto. }
    assert (Hstep : spec_step t ell (lv, A, xv) i = (lv1, A1, xv1)).
    { unfold spec_step. now rewrite Eli, Eui. }
    assert (Hsh1 : shaped (length xv1) (lv1, A1, xv1)).
    { rewrite <- Hstep.
      replace (length xv1) with (length xv).
      - apply spec_step_shaped. repeat split; auto.
      - unfold xv1. rewrite length_deflate; auto.
        rewrite length_vdiv. unfold v. rewrite length_provisional; auto. }
    destruct (IH x1 h1 lv1 A1 xv1) as (x' & h' & Hfor & Hpost); auto.
    + simpl. rewrite lookup_insert_ne by auto.
      unfold vecs1. apply lookup_insert_eq.
    + simpl. apply lookup_insert_eq.
    + simpl. apply lookup_insert_eq.
    + unfold lv1. rewrite length_insert. exact Hidx.
    + exists x', h'. split.
      * cbn [for_each]. rewrite (bind_ok _ _ _ _ _ Hrun). exact Hfor.
      * cbn [fold_left]. rewrite Hstep.
        destruct Hpost as (P1 & P2 & P3 & P4 & P5 & P6 & P7).
        repeat split; auto.
        -- intros l Hl1 Hl2.
           assert (Hl3 : vecs h1 !! l = vecs h !! l).
           { simpl. rewrite lookup_insert_ne.
             - unfold vecs1. now rewrite lookup_insert_ne.
             - apply fresh_allocated. unfold vecs1.
               rewrite lookup_insert_ne; auto. }
           rewrite <- Hl3. apply P5; auto. now rewrite Hl3.
        -- intros l Hl1. rewrite P6 by auto. simpl.
           now rewrite lookup_insert_ne.
Qed.

Lemma arrays_of_Some self h lv A :
  arrays_of self h = Some (lv, A) <->
  vecs h !! self_lambda_ self = Some lv /\ mats h !! self_Uhat self = Some A.
Proof.
  unfold arrays_of.
  destruct (vecs h !! self_lambda_ self), (mats h !! self_Uhat self);
    split; try (intros [E1 E2]); try intros E; try discriminate;
    try congruence.
  injection E as -> ->. auto.
Qed.

Lemma well_formed_shaped self h lv A xv :
  well_formed self h ->
  arrays_of self h = Some (lv, A) ->
  shape1 xv = self_d self ->
  shaped (length xv) (lv, A, xv) /\ Z.to_nat (self_q self) = length lv.
Proof.
  intros (lv0 & A0 & E1 & E2 & S1 & S2 & R & _) Ha Sx.
  apply arrays_of_Some in Ha as [E1' E2'].
  assert (lv0 = lv) by congruence. assert (A0 = A) by congruence. subst.
  unfold shape1 in *. unfold shape2 in S2. injection S2 as Sd Sq.
  split; [repeat split; simpl; auto; lia | lia].
Qed.

Lemma set_arrays_same self :
  set_arrays self (self_Uhat self) (self_lambda_ self) = self.
Proof. now destruct self. Qed.

Lemma loop_post_frame lam U h0 h x' h' (s : estimate) :
  loop_post lam U h0 x' h' s ->
  (forall l, is_Some (vecs h !! l) -> vecs h0 !! l = vecs h !! l) ->
  mats h0 = mats h -> rng h0 = rng h ->
  loop_post lam U h x' h' s.
Proof.
  intros (P1 & P2 & P3 & P4 & P5 & P6 & P7) Hv Hm Hr.
  repeat split; auto.
  - intros l Hl1 Hl2. rewrite <- (Hv l Hl2). apply P5; auto.
    now rewrite (Hv l Hl2).
  - intros l Hl. rewrite <- Hm. now apply P6.
  - congruence.
Qed.

(** The portable path of [fit_next] on a well-formed estimator: the call
    returns, and leaves what the loop over the columns leaves. *)
Lemma fit_next_reference_run self x_ in_place h lv A xv :
  self_cython self = false ->
  well_formed self h ->
  arrays_of self h = Some (lv, A) ->
  vecs h !! x_ = Some xv ->
  shape1 xv = self_d self ->
  (in_place = true -> x_ <> self_lambda_ self) ->
  exists x' h',
    fit_next coord_update self x_ in_place h
    = (Ok (set_t self (self_t self + 1)), h') /\
    loop_post (self_lambda_ self) (self_Uhat self) h x' h'
      (spec_update (self_t self) (self_ell self) (Z.to_nat (self_q self))
         (lv, A, xv)).
Proof.
  intros Hcy Hwf Ha Hx Hsx Halias.
  destruct (well_formed_shaped self h lv A xv Hwf Ha Hsx) as [Hsh Hq].
  pose proof Ha as Ha'. apply arrays_of_Some in Ha' as [Hlam HU].
  assert (Ht : self_t self + 1 <> 0).
  { destruct Hwf as (? & ? & _ & _ & _ & _ & _ & Ht). lia. }
  assert (Hidx : Forall (fun i => (i < length lv)%nat)
                   (seq 0 (Z.to_nat (self_q self)))).
  { apply Forall_forall. intros i Hi. apply elem_of_seq in Hi. lia. }
  unfold fit_next. rewrite Hcy.
  destruct in_place; cbn [negb].
  - (* the working copy is the caller's array *)
    rewrite (bind_ok _ _ h x_ h eq_refl).
    rewrite (bind_ok _ _ _ _ _ (get_vec_ok _ _ _ Hx)).
    unfold py_assert. rewrite Hsx, Z.eqb_refl.
    rewrite (bind_ok _ _ h tt h eq_refl).
    destruct (column_loop_run (self_t self) (self_ell self)
                (self_lambda_ self) (self_Uhat self)
                (seq 0 (Z.to_nat (self_q self))) x_ h lv A xv)
      as (x' & h' & Hfor & Hpost); auto.
    exists x', h'. split; [| exact Hpost].
    erewrite bind_ok.
    2:{ erewrite bind_ok by exact Hfor. reflexivity. }
    unfold ret. now rewrite set_arrays_same.
  - (* the working copy is a new array *)
    set (x0 := fresh (dom (vecs h))).
    set (h0 := Heap (<[x0 := xv]> (vecs h)) (mats h) (rng h)).
    assert (Hcopy : copy_vec x_ h = (Ok x0, h0)).
    { unfold copy_vec. now rewrite (bind_ok _ _ _ _ _ (get_vec_ok _ _ _ Hx)). }
    rewrite (bind_ok _ _ _ _ _ Hcopy).
    assert (Hx0 : vecs h0 !! x0 = Some xv) by (simpl; apply lookup_insert_eq).
    rewrite (bind_ok _ _ _ _ _ (get_vec_ok _ _ _ Hx0)).
    unfold py_assert. rewrite Hsx, Z.eqb_refl.
    rewrite (bind_ok _ _ h0 tt h0 eq_refl).
    assert (Hfr : forall l, is_Some (vecs h !! l) ->
                            vecs h0 !! l = vecs h !! l).
    { intros l Hl. simpl. rewrite lookup_insert_ne; auto.
      now apply fresh_allocated. }
    destruct (column_loop_run (self_t self) (self_ell self)
                (self_lambda_ self) (self_Uhat self)
                (seq 0 (Z.to_nat (self_q self))) x0 h0 lv A xv)
      as (x' & h' & Hfor & Hpost); auto.
    + rewrite Hfr; eauto.
    + apply fresh_allocated. eauto.
    + exists x', h'. split.
      * erewrite bind_ok.
        2:{ erewrite bind_ok by exact Hfor. reflexivity. }
        unfold ret. now rewrite set_arrays_same.
      * eapply loop_post_frame; eauto.
Qed.

Lemma loop_post_est lam U h x' h' (s : estimate) :
  loop_post lam U h x' h' s -> est_post lam U h h' (fst s).
Proof. intros (P1 & P2 & P3 & P4 & P5 & P6 & P7). repeat split; auto. Qed.

Lemma fold_spec_step_shaped d t ell (idx : list nat) :
  forall s : estimate,
    shaped d s ->
    shaped d (fold_left (spec_step t ell) idx s) /\
    length (fst (fst (fold_left (spec_step t ell) idx s)))
    = length (fst (fst s)).
Proof.
  induction idx as [|i idx IH]; intros s Hs; [auto |].
  cbn [fold_left].
  destruct (IH (spec_step t ell s i)) as [IH1 IH2].
  - now apply spec_step_shaped.
  - split; [exact IH1 |]. rewrite IH2. apply spec_step_length.
Qed.

Lemma absorb_shaped d ell q (lA : list F * matrix F) t xv :
  est_shaped d lA -> length xv = d ->
  est_shaped d (absorb ell q lA t xv) /\
  length (fst (absorb ell q lA t xv)) = length (fst lA).
Proof.
  intros HlA Hx. unfold absorb, spec_update.
  destruct (fold_spec_step_shaped d t ell (seq 0 q) (fst lA, snd lA, xv))
    as [[H1 _] H2].
  - split; [exact HlA | exact Hx].
  - split; [exact H1 | exact H2].
Qed.

Lemma _iterate_column_eq t ell lam U i x :
  _iterate_column (G := G) t ell lam U i x = fit_next_column t ell lam U i x.
Proof. unfold _iterate_column, fit_next_column. now rewrite Z.max_comm. Qed.

Lemma view_column_ok X (j : Z) h (XA : matrix F) xv :
  mats h !! X = Some XA ->
  columns XA !! Z.to_nat j = Some xv ->
  view_column X j h
  = (Ok (fresh (dom (vecs h))),
     Heap (<[fresh (dom (vecs h)) := xv]> (vecs h)) (mats h) (rng h)).
Proof.
  intros E1 E2. unfold view_column.
  now rewrite (bind_ok _ _ _ _ _ (mat_getcolumn_ok _ _ _ _ _ E1 E2)).
Qed.

Lemma column_lookup (XA : matrix F) (j : Z) :
  0 <= j < Z.of_nat (length (columns XA)) ->
  columns XA !! Z.to_nat j = Some (column XA j).
Proof.
  intros Hj. unfold column.
  destruct (lookup_lt_is_Some_2 (columns XA) (Z.to_nat j)) as [c Ec]; [lia |].
  now rewrite Ec.
Qed.

Lemma absorb_all_shaped d ell q (XA : matrix F) (sched : list (Z * Z)) :
  rectangular XA -> nrows XA = d ->
  Forall (fun tj => 0 <= snd tj < Z.of_nat (length (columns XA))) sched ->
  forall lA : list F * matrix F,
    est_shaped d lA ->
    est_shaped d (absorb_all ell q XA sched lA) /\
    length (fst (absorb_all ell q XA sched lA)) = length (fst lA).
Proof.
  intros HrX Hd. induction sched as [|[t j] sched IH]; intros Hsc lA HlA.
  - auto.
  - apply Forall_cons in Hsc as [Hj Hsc]. simpl in Hj.
    unfold absorb_all. cbn [fold_left fst snd].
    destruct (absorb_shaped d ell q lA t (column XA j) HlA) as [H1 H2].
    { pose proof (column_lookup XA j Hj) as Hcol.
      eapply Forall_lookup_1 in HrX; eauto. congruence. }
    destruct (IH Hsc (absorb ell q lA t (column XA j)) H1) as [H3 H4].
    split; [exact H3 |]. unfold absorb_all in H4. now rewrite H4.
Qed.

Lemma for_each_ext {B S : Type} (xs : list B) (f g : B -> S -> M F G S) :
  (forall b s h, f b s h = g b s h) ->
  forall s h, for_each xs f s h = for_each xs g s h.
Proof.
  intros Hfg. induction xs as [|b xs IH]; intros s h; [reflexivity |].
  cbn [for_each]. unfold bind. rewrite Hfg.
  destruct (g b s h) as [[s'|e] h1]; auto.
Qed.

(** One pass of the outer loop of the driver: the sample is column [j],
    and [col] is the body of the inner loop of either variant. *)
Lemma sample_run (col : nat -> loc -> M F G loc) t ell lam U X q h lv A
    (XA : matrix F) (j : Z) :
  (forall i x h, col i x h = fit_next_column t ell lam U i x h) ->
  t + 1 <> 0 ->
  vecs h !! lam = Some lv ->
  mats h !! U = Some A ->
  mats h !! X = Some XA ->
  X <> U ->
  rectangular XA ->
  est_shaped (nrows XA) (lv, A) ->
  q = length lv ->
  0 <= j < Z.of_nat (length (columns XA)) ->
  exists h',
    (x <- view_column X j ;; for_each (seq 0 q) col x ;; ret tt) h
    = (Ok tt, h') /\
    est_post lam U h h' (absorb ell q (lv, A) t (column XA j)).
Proof.
  intros Hcol' Ht Hlam HU HX Hne HrX Hsh Hq Hj.
  pose proof (column_lookup XA j Hj) as Hcol.
  assert (Hlen : length (column XA j) = nrows XA).
  { eapply Forall_lookup_1 in HrX; eauto. }
  set (x0 := fresh (dom (vecs h))).
  set (h0 := Heap (<[x0 := column XA j]> (vecs h)) (mats h) (rng h)).
  assert (Hfr : forall l, is_Some (vecs h !! l) ->
                          vecs h0 !! l = vecs h !! l).
  { intros l Hl. simpl. rewrite lookup_insert_ne; auto.
    now apply fresh_allocated. }
  destruct (column_loop_run t ell lam U (seq 0 q) x0 h0 lv A (column XA j))
    as (x' & h' & Hfor & Hpost); auto.
  - rewrite Hfr; eauto.
  - simpl. apply lookup_insert_eq.
  - apply fresh_allocated. eauto.
  - rewrite Hlen. split; auto.
  - apply Forall_forall. intros i Hi. apply elem_of_seq in Hi. lia.
  - exists h'. split.
    + rewrite (bind_ok _ _ _ _ _ (view_column_ok _ _ _ _ _ HX Hcol)).
      fold x0 h0. rewrite <- (for_each_ext _ _ _ Hcol') in Hfor.
      now rewrite (bind_ok _ _ _ _ _ Hfor).
    + apply loop_post_est in Hpost.
      destruct Hpost as (P1 & P2 & P3 & P4 & P5).
      repeat split; auto.
      * intros l Hl1 Hl2. rewrite <- (Hfr l Hl2). apply P3; auto.
        now rewrite (Hfr l Hl2).
Qed.

Lemma est_post_trans lam U h h1 h' (lA1 lA2 : list F * matrix F) :
  est_post lam U h h1 lA1 -> est_post lam U h1 h' lA2 ->
  est_post lam U h h' lA2.
Proof.
  intros (P1 & P2 & P3 & P4 & P5) (Q1 & Q2 & Q3 & Q4 & Q5).
  repeat split; auto.
  - intros l Hl1 Hl2. rewrite <- (P3 l Hl1 Hl2). apply Q3; auto.
    now rewrite (P3 l Hl1 Hl2).
  - intros l Hl. rewrite <- (P4 l Hl). now apply Q4.
  - congruence.
Qed.

Lemma py_range_Forall (P : Z -> Prop) lo hi :
  (forall t, lo <= t < hi -> P t) -> Forall P (py_range lo hi).
Proof.
  intros HP. unfold py_range. apply Forall_map, Forall_forall.
  intros k Hk. apply elem_of_seq in Hk. apply HP. lia.
Qed.

Lemma py_range_length lo hi : length (py_range lo hi) = Z.to_nat (hi - lo).
Proof. unfold py_range. now rewrite length_map, length_seq. Qed.

Lemma py_mod_ok (t n : Z) h : n <> 0 -> py_mod t n h = (Ok (t mod n), h).
Proof.
  intros Hn. unfold py_mod.
  destruct (Z.eqb_spec n 0); [contradiction | reflexivity].
Qed.

(** The outer loop of [_iterate] over the counters [ts]. *)
Lemma _iterate_loop_run ell lam U X q (XA : matrix F) (ts : list Z) :
  forall h lv A,
    Forall (fun t => t + 1 <> 0) ts ->
    0 < Z.of_nat (length (columns XA)) ->
    vecs h !! lam = Some lv ->
    mats h !! U = Some A ->
    mats h !! X = Some XA ->
    X <> U ->
    rectangular XA ->
    est_shaped (nrows XA) (lv, A) ->
    Z.to_nat q = length lv ->
    exists h',
      for_each ts
        (fun t (_ : unit) =>
           j <- py_mod t (Z.of_nat (length (columns XA))) ;;
           x <- view_column X j ;;
           for_each (seq 0 (Z.to_nat q)) (_iterate_column t ell lam U) x ;;
           ret tt) tt h
      = (Ok tt, h') /\
      est_post lam U h h'
        (absorb_all ell (Z.to_nat q) XA
           (map (fun t => (t, t mod Z.of_nat (length (columns XA)))) ts)
           (lv, A)).
Proof.
  induction ts as [|t ts IH]; intros h lv A Hts Hn Hlam HU HX Hne HrX Hsh Hq.
  - exists h. split; [reflexivity |]. repeat split; auto.
  - apply Forall_cons in Hts as [Ht Hts].
    set (n := Z.of_nat (length (columns XA))) in *.
    assert (Hj : 0 <= t mod n < n) by (apply Z.mod_pos_bound; lia).
    destruct (sample_run (_iterate_column t ell lam U) t ell lam U X
                (Z.to_nat q) h lv A XA (t mod n))
      as (h1 & Hrun & Hpost); auto using _iterate_column_eq.
    { intros. now rewrite _iterate_column_eq. }
    pose proof Hpost as (P1 & P2 & P3 & P4 & P5).
    destruct (absorb_shaped (nrows XA) ell (Z.to_nat q) (lv, A) t
                (column XA (t mod n)) Hsh) as [Hsh1 Hlen1].
    { pose proof (column_lookup XA (t mod n) Hj) as Hcol.
      eapply Forall_lookup_1 in HrX; eauto. }
    destruct (IH h1 (fst (absorb ell (Z.to_nat q) (lv, A) t
                            (column XA (t mod n))))
                 (snd (absorb ell (Z.to_nat q) (lv, A) t
                         (column XA (t mod n)))))
      as (h' & Hfor & Hpost'); auto.
    + rewrite P4; auto.
    + rewrite Hlen1. exact Hq.
    + exists h'. split.
      * cbn [for_each].
        erewrite bind_ok.
        2:{ rewrite (bind_ok _ _ _ _ _ (py_mod_ok t n h ltac:(lia))).
            exact Hrun. }
        exact Hfor.
      * cbn [map fold_left absorb_all] in *.
        rewrite <- surjective_pairing in Hpost'.
        eapply est_post_trans; eauto.
Qed.

Lemma fresh_allocated_mat (m : gmap loc (matrix F)) l :
  is_Some (m !! l) -> fresh (dom m) <> l.
Proof.
  intros Hs Heq. apply (is_fresh (dom m)). rewrite Heq.
  now apply elem_of_dom.
Qed.

Lemma shape2_eqb_spec (s1 s2 : Z * Z) : shape2_eqb s1 s2 = true <-> s1 = s2.
Proof.
  destruct s1 as [a b], s2 as [c e]. unfold shape2_eqb. simpl.
  rewrite andb_true_iff, !Z.eqb_eq. split.
  - intros [-> ->]. reflexivity.
  - intros E. injection E as -> ->. auto.
Qed.

(** [_iterate] on arrays of the right shapes. *)
Lemma _iterate_run ell lam U X q n_its (XA : matrix F) h lv A :
  vecs h !! lam = Some lv ->
  mats h !! U = Some A ->
  mats h !! X = Some XA ->
  X <> U ->
  rectangular XA ->
  est_shaped (nrows XA) (lv, A) ->
  Z.to_nat q = length lv ->
  (Z.of_nat (length (columns XA)) = 0 -> n_its <= 1) ->
  exists h',
    _iterate X lam U ell n_its (Z.of_nat (length (columns XA))) q h
    = (Ok U, h') /\
    est_post lam U h h'
      (absorb_all ell (Z.to_nat q) XA
         (schedule n_its (Z.of_nat (length (columns XA)))) (lv, A)).
Proof.
  intros Hlam HU HX Hne HrX Hsh Hq Hn0.
  unfold _iterate, schedule.
  destruct (Z.eq_dec (Z.of_nat (length (columns XA))) 0) as [E0|E0].
  - assert (Hr : py_range 1 n_its = []).
    { unfold py_range. replace (Z.to_nat (n_its - 1)) with 0%nat by lia.
      reflexivity. }
    rewrite Hr. exists h. split; [reflexivity |]. repeat split; auto.
  - destruct (_iterate_loop_run ell lam U X q XA (py_range 1 n_its) h lv A)
      as (h' & Hfor & Hpost); auto; [| lia |].
    + apply py_range_Forall. intros t Ht. lia.
    + exists h'. split; [| exact Hpost].
      now rewrite (bind_ok _ _ _ _ _ Hfor).
Qed.

Lemma init_Uhat_inv q d Uhat0 h U h1 :
  init_Uhat random_normal2 q d Uhat0 h = (Ok U, h1) ->
  U = fresh (dom (mats h)) /\
  vecs h1 = vecs h /\
  exists A, mats h1 = <[U := A]> (mats h).
Proof.
  unfold init_Uhat. destruct Uhat0 as [U0|]; intros E.
  - apply bind_inv_ok in E as (A & h2 & E1 & E).
    apply bind_inv_ok in E as ([] & h3 & E2 & E).
    unfold get_mat in E1. destruct (mats h !! U0); [| discriminate].
    injection E1 as -> ->.
    unfold py_assert in E2.
    destruct (shape2_eqb (shape2 A) (d, q)); [| discriminate].
    injection E2 as ->.
    unfold new_mat in E. injection E as <- <-. simpl. eauto.
  - apply bind_inv_ok in E as (s & h2 & E1 & E).
    apply bind_inv_ok in E as (A & h3 & E2 & E).
    unfold py_truediv in E1. destruct (d =? 0); [discriminate |].
    injection E1 as _ ->.
    unfold np_random_normal2 in E2.
    destruct ((d <? 0) || (q <? 0)); [discriminate |].
    destruct (random_normal2 _ _ _ _ _) as [A' g].
    injection E2 as -> <-.
    unfold new_mat in E. injection E as <- <-. simpl. eauto.
Qed.

Lemma init_lambda_inv q lambda0 h lam h1 :
  init_lambda_ random_normal1 q lambda0 h = (Ok lam, h1) ->
  lam = fresh (dom (vecs h)) /\
  mats h1 = mats h /\
  exists a, vecs h1 = <[lam := a]> (vecs h).
Proof.
  unfold init_lambda_. destruct lambda0 as [l0|]; intros E.
  - apply bind_inv_ok in E as (a & h2 & E1 & E).
    apply bind_inv_ok in E as ([] & h3 & E2 & E).
    unfold get_vec in E1. destruct (vecs h !! l0); [| discriminate].
    injection E1 as -> ->.
    unfold py_assert in E2. destruct (shape1 a =? q); [| discriminate].
    injection E2 as ->.
    unfold new_vec in E. injection E as <- <-. simpl. eauto.
  - apply bind_inv_ok in E as (a & h2 & E1 & E).
    unfold np_random_normal1 in E1.
    destruct (q <? 0); [discriminate |].
    destruct (random_normal1 _ _ _ _) as [a' g].
    injection E1 as -> <-.
    unfold new_vec in E. injection E as <- <-. simpl. eauto.
Qed.

(** The portable path of [fit_next] with what it leaves and the invariant,
    which holds again after the call. *)
Lemma fit_next_reference_run_wf self x_ in_place h lv A xv :
  self_cython self = false ->
  well_formed self h ->
  arrays_of self h = Some (lv, A) ->
  vecs h !! x_ = Some xv ->
  shape1 xv = self_d self ->
  (in_place = true -> x_ <> self_lambda_ self) ->
  exists x' h',
    fit_next coord_update self x_ in_place h
    = (Ok (set_t self (self_t self + 1)), h') /\
    loop_post (self_lambda_ self) (self_Uhat self) h x' h'
      (spec_update (self_t self) (self_ell self) (Z.to_nat (self_q self))
         (lv, A, xv)) /\
    well_formed (set_t self (self_t self + 1)) h'.
Proof.
  intros Hcy Hwf Ha Hx Hsx Halias.
  destruct (fit_next_reference_run self x_ in_place h lv A xv)
    as (x' & h' & Hrun & Hpost); auto.
  exists x', h'. split; [exact Hrun |]. split; [exact Hpost |].
  destruct (well_formed_shaped self h lv A xv Hwf Ha Hsx) as [Hsh Hq].
  destruct (fold_spec_step_shaped (length xv) (self_t self) (self_ell self)
              (seq 0 (Z.to_nat (self_q self))) (lv, A, xv) Hsh)
    as [((S1 & S2 & S3) & _) Hlen].
  fold (spec_update (self_t self) (self_ell self) (Z.to_nat (self_q self))
          (lv, A, xv)) in S1, S2, S3, Hlen.
  destruct Hpost as (P1 & P2 & _).
  destruct (spec_update _ _ _ _) as [[lv' A'] xv']. simpl in *.
  destruct Hwf as (lv0 & A0 & _ & _ & Sq & _ & _ & Ht).
  exists lv', A'. unfold shape1, shape2 in *.
  split; [exact P1 |]. split; [exact P2 |]. cbn [set_t self_q self_d self_t].
  split; [lia |]. split; [f_equal; lia |].
  split; [exact S2 | lia].
Qed.

(** ** The single-sample update *)

(** C1.  On the portable path ([cython] false), a call of [fit_next] on a
    well-formed estimator with a sample [x_] of shape [(d,)] returns, and
    the estimator's arrays are then the ones the update rule gives: the
    columns [i = 0 .. q-1] taken in increasing order, each with
    [v = (max(1, t - ell) / (t + 1)) * lambda[i] * Uhat[:,i]
         + ((1 + ell) / (t + 1)) * dot(x, Uhat[:,i]) * x]
    on the working copy [x] deflated by the earlier columns, then
    [lambda[i] = ||v||], [Uhat[:,i] = v / lambda[i]] and
    [x = x - dot(x, Uhat[:,i]) * Uhat[:,i]]. *)
Theorem fit_next_update_rule self x_ in_place h lv A xv :
  self_cython self = false ->
  well_formed self h ->
  arrays_of self h = Some (lv, A) ->
  vecs h !! x_ = Some xv ->
  shape1 xv = self_d self ->
  (in_place = true -> x_ <> self_lambda_ self) ->
  exists h',
    fit_next coord_update self x_ in_place h
    = (Ok (set_t self (self_t self + 1)), h') /\
    arrays_of (set_t self (self_t self + 1)) h'
    = Some (fst (spec_update (self_t self) (self_ell self)
                   (Z.to_nat (self_q self)) (lv, A, xv))).
Proof.
  intros Hcy Hwf Ha Hx Hsx Halias.
  destruct (fit_next_reference_run self x_ in_place h lv A xv)
    as (x' & h' & Hrun & Hpost); auto.
  exists h'. split; [exact Hrun |].
  destruct Hpost as (P1 & P2 & _).
  destruct (spec_update _ _ _ _) as [[lv' A'] xv'].
  apply arrays_of_Some. split; [exact P1 | exact P2].
Qed.

(** C9.  A call of [fit_next] with a sample whose shape is not [(d,)]
    raises the assertion error, on either path and before anything is
    assigned: every array on the heap is as it was (with [in_place] false
    the heap only gains the private copy). *)
Theorem fit_next_shape_mismatch self x_ in_place h xv :
  vecs h !! x_ = Some xv ->
  shape1 xv <> self_d self ->
  exists h',
    fit_next coord_update self x_ in_place h = (Raise AssertionError, h') /\
    (forall l, is_Some (vecs h !! l) -> vecs h' !! l = vecs h !! l) /\
    mats h' = mats h /\
    rng h' = rng h /\
    (in_place = true -> h' = h).
Proof.
  intros Hx Hsx. unfold fit_next.
  assert (Hne : (shape1 xv =? self_d self) = false) by now apply Z.eqb_neq.
  destruct in_place; cbn [negb].
  - exists h. rewrite (bind_ok _ _ h x_ h eq_refl).
    rewrite (bind_ok _ _ _ _ _ (get_vec_ok _ _ _ Hx)).
    unfold py_assert. rewrite Hne.
    rewrite (bind_raise (raise AssertionError) _ h AssertionError h eq_refl).
    auto.
  - set (x0 := fresh (dom (vecs h))).
    set (h0 := Heap (<[x0 := xv]> (vecs h)) (mats h) (rng h)).
    exists h0.
    assert (Hcopy : copy_vec x_ h = (Ok x0, h0)).
    { unfold copy_vec. now rewrite (bind_ok _ _ _ _ _ (get_vec_ok _ _ _ Hx)). }
    rewrite (bind_ok _ _ _ _ _ Hcopy).
    assert (Hx0 : vecs h0 !! x0 = Some xv) by (simpl; apply lookup_insert_eq).
    rewrite (bind_ok _ _ _ _ _ (get_vec_ok _ _ _ Hx0)).
    unfold py_assert. rewrite Hne.
    rewrite (bind_raise (raise AssertionError) _ h0 AssertionError h0 eq_refl).
    repeat split; auto; [| discriminate].
    intros l Hl. simpl. rewrite lookup_insert_ne; auto.
    now apply fresh_allocated.
Qed.

Lemma bind_inv {B C : Type} (m : M F G B) (k : B -> M F G C) h r h' :
  bind m k h = (r, h') ->
  (exists b h1, m h = (Ok b, h1) /\ k b h1 = (r, h')) \/
  (exists e, m h = (Raise e, h') /\ r = Raise e).
Proof.
  unfold bind. destruct (m h) as [[b|e] h1]; intros E.
  - left. now exists b, h1.
  - right. exists e. now injection E as <- <-.
Qed.

Lemma writes_only_ret {B : Type} L (b : B) :
  writes_only L (ret b : M F G B).
Proof. intros h r h' E. now injection E as _ <-. Qed.

Lemma writes_only_raise {B : Type} L e :
  writes_only L (raise e : M F G B).
Proof. intros h r h' E. now injection E as _ <-. Qed.

Lemma writes_only_bind {B C : Type} L (m : M F G B) (k : B -> M F G C) :
  writes_only L m -> (forall b, writes_only L (k b)) ->
  writes_only L (bind m k).
Proof.
  intros Hm Hk h r h' E l Hl Hs.
  apply bind_inv in E as [(b & h1 & E1 & E2) | (e & E1 & _)].
  - rewrite <- (Hm _ _ _ E1 l Hl Hs).
    apply (Hk b _ _ _ E2 l Hl). now rewrite (Hm _ _ _ E1 l Hl Hs).
  - apply (Hm _ _ _ E1 l Hl Hs).
Qed.

Lemma writes_only_get_vec L x : writes_only L (get_vec x : M F G (list F)).
Proof.
  intros h r h' E. unfold get_vec in E.
  destruct (vecs h !! x); now injection E as _ <-.
Qed.

Lemma writes_only_get_mat L U : writes_only L (get_mat U : M F G (matrix F)).
Proof.
  intros h r h' E. unfold get_mat in E.
  destruct (mats h !! U); now injection E as _ <-.
Qed.

Lemma writes_only_set_vec L x (a : list F) :
  x ∈ L -> writes_only L (set_vec (G := G) x a).
Proof.
  intros Hx h r h' E l Hl _. injection E as _ <-. simpl.
  apply lookup_insert_ne. intros ->. contradiction.
Qed.

Lemma writes_only_set_mat L U A : writes_only L (set_mat (G := G) U A).
Proof. intros h r h' E l _ _. now injection E as _ <-. Qed.

Lemma writes_only_new_vec L (a : list F) : writes_only L (new_vec (G := G) a).
Proof.
  intros h r h' E l _ Hs. injection E as _ <-. simpl.
  apply lookup_insert_ne. now apply fresh_allocated.
Qed.

Lemma writes_only_for_each {B S : Type} L (xs : list B)
    (body : B -> S -> M F G S) :
  (forall b s, writes_only L (body b s)) ->
  forall s, writes_only L (for_each xs body s).
Proof.
  intros Hb. induction xs as [|b xs IH]; intros s; cbn [for_each].
  - apply writes_only_ret.
  - apply writes_only_bind; auto.
Qed.

Create HintDb frame.
#[local] Hint Resolve writes_only_ret writes_only_raise writes_only_get_vec
  writes_only_get_mat writes_only_set_mat writes_only_new_vec : frame.

Ltac frame_step :=
  repeat first
    [ apply writes_only_bind; [| intros ]
    | match goal with
      | |- writes_only _ (match ?o with _ => _ end) => destruct o
      end
    | solve [auto with frame] ].

Lemma writes_only_vec_getitem L lam i :
  writes_only L (vec_getitem lam i : M F G F).
Proof. unfold vec_getitem. frame_step. Qed.

Lemma writes_only_vec_setitem L lam i (e : F) :
  lam ∈ L -> writes_only L (vec_setitem (G := G) lam i e).
Proof.
  intros Hl. unfold vec_setitem.
  apply writes_only_bind; [auto with frame | intros a].
  destruct (i <? length a)%nat; [| auto with frame].
  now apply writes_only_set_vec.
Qed.

Lemma writes_only_mat_getcolumn L U i :
  writes_only L (mat_getcolumn U i : M F G (list F)).
Proof. unfold mat_getcolumn. frame_step. Qed.

Lemma writes_only_mat_setcolumn L U i (c : list F) :
  writes_only L (mat_setcolumn (G := G) U i c).
Proof. unfold mat_setcolumn. frame_step. Qed.

Lemma writes_only_np_dot L (a b : list F) :
  writes_only L (np_dot (G := G) a b).
Proof. unfold np_dot. frame_step. Qed.

(** The kernel modelled from the contract writes to [lambda_] only. *)
Lemma spec_coord_update_frame : kernel_frame (spec_coord_update (G := G)).
Proof.
  intros x d t ell lam U q v. unfold spec_coord_update.
  apply writes_only_bind; [| intros; apply writes_only_ret].
  apply writes_only_for_each. intros i x0. unfold kernel_column.
  repeat first
    [ apply writes_only_vec_getitem
    | apply writes_only_mat_getcolumn
    | apply writes_only_mat_setcolumn
    | apply writes_only_np_dot
    | apply writes_only_get_vec
    | apply writes_only_new_vec
    | apply writes_only_vec_setitem; rewrite !elem_of_cons; auto
    | apply writes_only_bind; [| intros ] ].
Qed.

(** C10 (amended).  With [in_place] false the estimator works on a private
    copy; with [in_place] true its working variable starts as the caller's
    array, and on the portable path each deflation rebinds it to a new
    array instead of writing into the caller's.  So on the portable path
    the caller's sample array is the same after the call as before it,
    whatever [in_place]; and on the optimized path with [in_place] false
    it is the same after a call that returns, the kernel being handed the
    copy, when the kernel writes to no array but those it is handed.  (The
    sample is an array of the caller's, not the estimator's own [lambda_]
    or [v].) *)
Theorem fit_next_keeps_sample self x_ h xv :
  vecs h !! x_ = Some xv ->
  x_ <> self_lambda_ self ->
  (forall in_place lv A,
      self_cython self = false ->
      well_formed self h ->
      arrays_of self h = Some (lv, A) ->
      shape1 xv = self_d self ->
      exists self' h',
        fit_next coord_update self x_ in_place h = (Ok self', h') /\
        vecs h' !! x_ = Some xv) /\
  (forall self' h',
      self_cython self = true ->
      kernel_frame coord_update ->
      x_ <> self_v self ->
      fit_next coord_update self x_ false h = (Ok self', h') ->
      vecs h' !! x_ = Some xv).
Proof.
  clear coord_update_total random_normal1 random_normal2.
  intros Hx Hne. split.
  - intros in_place lv A Hcy Hwf Ha Hsx.
    destruct (fit_next_reference_run self x_ in_place h lv A xv)
      as (x' & h' & Hrun & Hpost); auto.
    exists (set_t self (self_t self + 1)), h'. split; [exact Hrun |].
    destruct Hpost as (_ & _ & _ & _ & P5 & _).
    rewrite P5; eauto.
  - intros self' h' Hcy Hk Hv E. unfold fit_next in E.
    rewrite Hcy in E. cbn [negb] in E.
    set (x0 := fresh (dom (vecs h))) in *.
    set (h0 := Heap (<[x0 := xv]> (vecs h)) (mats h) (rng h)) in *.
    assert (Hcopy : copy_vec x_ h = (Ok x0, h0)).
    { unfold copy_vec. now rewrite (bind_ok _ _ _ _ _ (get_vec_ok _ _ _ Hx)). }
    rewrite (bind_ok _ _ _ _ _ Hcopy) in E.
    apply bind_inv_ok in E as (xv0 & h2 & E1 & E).
    assert (h2 = h0) as ->.
    { unfold get_vec in E1. destruct (vecs h0 !! x0); [| discriminate].
      now injection E1. }
    apply bind_inv_ok in E as ([] & h3 & E2 & E).
    assert (h3 = h0) as ->.
    { unfold py_assert in E2. destruct (_ =? _); [| discriminate].
      now injection E2. }
    apply bind_inv_ok in E as (self1 & h4 & E3 & E).
    injection E as _ <-.
    apply bind_inv_ok in E3 as (r & h5 & E4 & E3).
    injection E3 as _ <-.
    assert (Hx0 : x0 <> x_) by (apply fresh_allocated; eauto).
    rewrite (Hk _ _ _ _ _ _ _ _ _ _ _ E4 x_).
    + simpl. rewrite lookup_insert_ne; auto.
    + rewrite !not_elem_of_cons. repeat split; auto. apply not_elem_of_nil.
    + simpl. rewrite lookup_insert_ne; eauto.
Qed.

Lemma fit_next_counter self x_ in_place h self' h' :
  fit_next coord_update self x_ in_place h = (Ok self', h') ->
  self_t self' = self_t self + 1.
Proof.
  unfold fit_next. intros E.
  apply bind_inv_ok in E as (x & h1 & _ & E).
  apply bind_inv_ok in E as (xv & h2 & _ & E).
  apply bind_inv_ok in E as ([] & h3 & _ & E).
  apply bind_inv_ok in E as (self1 & h4 & E1 & E).
  injection E as <- _.
  assert (Ht : self_t self1 = self_t self).
  { destruct (self_cython self).
    - apply bind_inv_ok in E1 as (r & h5 & _ & E1). now injection E1 as <- _.
    - apply bind_inv_ok in E1 as (x' & h5 & _ & E1). now injection E1 as <- _. }
  simpl. now rewrite Ht.
Qed.

(** C8.  The constructor sets the counter to 1, and after [n] calls of
    [fit_next] that returned the counter is the one before them plus [n]:
    each such call adds exactly one. *)
Theorem counter_counts_calls :
  (forall q d Uhat0 lambda0 ell cython h self h',
      __init__ random_normal1 random_normal2 q d Uhat0 lambda0 ell cython h
      = (Ok self, h') ->
      self_t self = 1) /\
  (forall n self self',
      after_calls coord_update n self self' ->
      self_t self' = self_t self + Z.of_nat n).
Proof.
  split.
  - intros q d Uhat0 lambda0 ell cython h self h' E. unfold __init__ in E.
    apply bind_inv_ok in E as (U & h1 & _ & E).
    apply bind_inv_ok in E as (lam & h2 & _ & E).
    apply bind_inv_ok in E as (v & h3 & _ & E).
    now injection E as <- _.
  - intros n self self' Hc.
    induction Hc as [self | n self self1 self2 x_ in_place h h' Hc IH E].
    + simpl. lia.
    + apply fit_next_counter in E. lia.
Qed.

(** C5 (amended).  No step of the update tests the norm it divides by.  For
    column [i] of arrays of the right shapes, the body of the loop of
    [fit_next] and those of the two loops of the streaming driver return
    without raising, whatever the value of [||v||], zero included: they set
    [lambda[i]] to [||v||] and [Uhat[:, i]] to [v / lambda[i]]. *)
Theorem column_update_unguarded t ell lam U i x h lv A xv li ui :
  t + 1 <> 0 ->
  vecs h !! lam = Some lv ->
  mats h !! U = Some A ->
  vecs h !! x = Some xv ->
  x <> lam ->
  lv !! i = Some li ->
  columns A !! i = Some ui ->
  length ui = nrows A ->
  length xv = length ui ->
  exists x' h',
    fit_next_column t ell lam U i x h = (Ok x', h') /\
    _iterate_column t ell lam U i x h = (Ok x', h') /\
    _iterate_and_compute_errors_column t ell lam U i x h = (Ok x', h') /\
    vecs h' !! lam = Some (<[i := norm (provisional t ell li ui xv)]> lv) /\
    mats h' !! U
    = Some (Matrix (nrows A)
              (<[i := vdiv (provisional t ell li ui xv)
                        (norm (provisional t ell li ui xv))]> (columns A))).
Proof.
  intros Ht Hlam HU Hx Hne Hli Hui Hlen Hxlen.
  pose proof (fit_next_column_run t ell lam U i x h lv A xv li ui
                Ht Hlam HU Hx Hne Hli Hui Hlen Hxlen) as Hrun.
  eexists _, _. split; [exact Hrun |]. split; [| split; [exact Hrun |]].
  - rewrite _iterate_column_eq. exact Hrun.
  - simpl. split.
    + rewrite lookup_insert_ne; [apply lookup_insert_eq |].
      apply fresh_allocated. rewrite lookup_insert_eq. eauto.
    + apply lookup_insert_eq.
Qed.

(** ** The streaming driver *)

Lemma map_lookup {B C : Type} (f : B -> C) (l : list B) (k : nat) :
  map f l !! k = f <$> (l !! k).
Proof.
  revert k. induction l as [|b l IH]; intros [|k]; simpl; auto.
Qed.

Lemma schedule_lookup n_its n (k : nat) t j :
  schedule n_its n !! k = Some (t, j) ->
  t = 1 + Z.of_nat k /\ j = t mod n /\ 1 <= t < n_its.
Proof.
  unfold schedule, py_range. rewrite !map_lookup. intros E.
  destruct (seq 0 (Z.to_nat (n_its - 1)) !! k) as [k'|] eqn:Ek;
    [| discriminate].
  apply lookup_seq in Ek as [-> Hk]. simpl in E.
  injection E as <- <-. repeat split; lia.
Qed.

(** With an evaluator that only reads, the loop of
    [_iterate_and_compute_errors] is the loop of [_iterate]. *)
Lemma _iterate_and_compute_errors_eq X lam U ell n_its n q o h :
  (forall U' t e h', compute_errors o U' t e h' = (Ok tt, h')) ->
  _iterate_and_compute_errors initialize_errors compute_errors
    X lam U ell n_its n q o h
  = (errs <- initialize_errors o n_its ;;
     _iterate X lam U ell n_its n q ;;
     ret errs) h.
Proof.
  intros Hread. unfold _iterate_and_compute_errors, _iterate.
  apply bind_cong; [reflexivity | intros errs h1].
  rewrite bind_assoc.
  apply bind_cong; [| reflexivity].
  apply for_each_ext. intros t [] h2.
  apply bind_cong; [reflexivity | intros j h3].
  rewrite (bind_ok _ _ _ _ _ (Hread U t errs h3)).
  apply bind_cong; [reflexivity | intros x h4].
  apply bind_cong; [| reflexivity].
  apply for_each_ext. intros i x0 h5. now rewrite _iterate_column_eq.
Qed.

(** C2 (amended).  The driver with no evaluator takes the initial
    estimates, copied or drawn, through [n_epoch * n - 1] single-sample
    updates: the loop counter [t] runs from 1 to [n_epoch * n - 1] and the
    update at [t] absorbs column [t mod n] at counter [t].  The first pass
    so starts at column 1; column 0 is first absorbed at [t = n], where the
    index wraps, and the later passes take the columns in order from
    column 0.  With an evaluator that only reads, the driver makes the
    container of the errors and then runs the same loop. *)
Theorem CCIPCA_schedule X (XA : matrix F) q n_epoch Uhat0 lambda0 ell
    h U h1 lam h2 lv A :
  mats h !! X = Some XA ->
  rectangular XA ->
  init_Uhat random_normal2 q (Z.of_nat (nrows XA)) Uhat0 h = (Ok U, h1) ->
  init_lambda_ random_normal1 q lambda0 h1 = (Ok lam, h2) ->
  vecs h2 !! lam = Some lv ->
  mats h2 !! U = Some A ->
  est_shaped (nrows XA) (lv, A) ->
  Z.to_nat q = length lv ->
  (exists h',
      CCIPCA random_normal1 random_normal2 initialize_errors compute_errors
        X q n_epoch None Uhat0 lambda0 ell h
      = (Ok (PyMatrix U), h') /\
      est_post lam U h2 h'
        (absorb_all ell (Z.to_nat q) XA
           (schedule (n_epoch * Z.of_nat (length (columns XA)))
              (Z.of_nat (length (columns XA))))
           (lv, A))) /\
  length (schedule (n_epoch * Z.of_nat (length (columns XA)))
            (Z.of_nat (length (columns XA))))
  = Z.to_nat (n_epoch * Z.of_nat (length (columns XA)) - 1) /\
  (forall (k : nat) t j,
      schedule (n_epoch * Z.of_nat (length (columns XA)))
        (Z.of_nat (length (columns XA))) !! k = Some (t, j) ->
      t = 1 + Z.of_nat k /\ j = t mod Z.of_nat (length (columns XA))) /\
  (forall o,
      (forall U' t e h', compute_errors o U' t e h' = (Ok tt, h')) ->
      CCIPCA random_normal1 random_normal2 initialize_errors compute_errors
        X q n_epoch (Some o) Uhat0 lambda0 ell h
      = (errs <- initialize_errors o
                   (n_epoch * Z.of_nat (length (columns XA))) ;;
         _iterate X lam U ell (n_epoch * Z.of_nat (length (columns XA)))
           (Z.of_nat (length (columns XA))) q ;;
         ret (PyErrs errs)) h2).
Proof.
  clear coord_update coord_update_total.
  intros HX HrX HU0 Hl0 Hlam HU Hsh Hq.
  destruct (init_Uhat_inv _ _ _ _ _ _ HU0) as (EU & Ev1 & A0 & Em1).
  destruct (init_lambda_inv _ _ _ _ _ Hl0) as (El & Em2 & a0 & Ev2).
  assert (HXU : X <> U).
  { rewrite EU. intros E. symmetry in E. revert E.
    apply fresh_allocated_mat. eauto. }
  assert (HX2 : mats h2 !! X = Some XA).
  { rewrite Em2, Em1, lookup_insert_ne; auto. }
  destruct (_iterate_run ell lam U X q
              (n_epoch * Z.of_nat (length (columns XA))) XA h2 lv A)
    as (h' & Hit & Hpost); auto; [lia |].
  split; [| split; [| split]].
  - exists h'. split; [| exact Hpost].
    unfold CCIPCA.
    rewrite (bind_ok _ _ _ _ _ (get_mat_ok _ _ _ HX)).
    cbn [shape2 fst snd].
    rewrite (bind_ok _ _ _ _ _ HU0), (bind_ok _ _ _ _ _ Hl0).
    now rewrite (bind_ok _ _ _ _ _ Hit).
  - unfold schedule. now rewrite length_map, py_range_length.
  - intros k t j Hk. apply schedule_lookup in Hk. tauto.
  - intros o Hread. unfold CCIPCA.
    rewrite (bind_ok _ _ _ _ _ (get_mat_ok _ _ _ HX)).
    cbn [shape2 fst snd].
    rewrite (bind_ok _ _ _ _ _ HU0), (bind_ok _ _ _ _ _ Hl0).
    erewrite bind_cong;
      [| apply (_iterate_and_compute_errors_eq _ _ _ _ _ _ _ _ _ Hread)
       | reflexivity].
    rewrite bind_assoc.
    apply bind_cong; [reflexivity | intros errs h3].
    rewrite bind_assoc.
    apply bind_cong; reflexivity.
Qed.

(** C3 (amended).  A call of the driver that returns gives back one of two
    things, chosen by whether [error_options] is passed: without it, the
    reference to the array [Uhat] alone (not a pair with [lambda_], which
    the caller does not get); with it, the container that
    [util.initialize_errors(error_options, n_epoch * n)] made. *)
Theorem CCIPCA_return_value X q n_epoch error_options Uhat0 lambda0 ell
    h v h' :
  CCIPCA random_normal1 random_normal2 initialize_errors compute_errors
    X q n_epoch error_options Uhat0 lambda0 ell h
  = (Ok v, h') ->
  exists (XA : matrix F) U h1 lam h2,
    mats h !! X = Some XA /\
    init_Uhat random_normal2 q (fst (shape2 XA)) Uhat0 h = (Ok U, h1) /\
    init_lambda_ random_normal1 q lambda0 h1 = (Ok lam, h2) /\
    match error_options with
    | None => v = PyMatrix U
    | Some o =>
        exists e h3,
          initialize_errors o (n_epoch * snd (shape2 XA)) h2 = (Ok e, h3) /\
          v = PyErrs e
    end.
Proof.
  unfold CCIPCA. intros E.
  apply bind_inv_ok in E as (XA & h0 & E0 & E).
  assert (h0 = h /\ mats h !! X = Some XA) as [-> HX].
  { unfold get_mat in E0. destruct (mats h !! X); [| discriminate].
    now injection E0 as -> ->. }
  apply bind_inv_ok in E as (U & h1 & EU & E).
  apply bind_inv_ok in E as (lam & h2 & El & E).
  exists XA, U, h1, lam, h2. repeat split; auto.
  destruct error_options as [o|].
  - apply bind_inv_ok in E as (e & h3 & Ee & E). injection E as <- _.
    unfold _iterate_and_compute_errors in Ee.
    apply bind_inv_ok in Ee as (e0 & h4 & Ei & Ee).
    apply bind_inv_ok in Ee as ([] & h5 & _ & Ee). injection Ee as -> _.
    eauto.
  - apply bind_inv_ok in E as (U' & h3 & Ei & E). injection E as <- _.
    unfold _iterate in Ei.
    apply bind_inv_ok in Ei as ([] & h4 & _ & Ei). now injection Ei as ->.
Qed.

(** ** Construction *)

Lemma init_Uhat_mismatch q d U0 h A :
  mats h !! U0 = Some A ->
  shape2 A <> (d, q) ->
  init_Uhat random_normal2 q d (Some U0) h = (Raise AssertionError, h).
Proof.
  intros HU Hs. unfold init_Uhat.
  rewrite (bind_ok _ _ _ _ _ (get_mat_ok _ _ _ HU)).
  assert (E : shape2_eqb (shape2 A) (d, q) = false).
  { destruct (shape2_eqb _ _) eqn:E; [| reflexivity].
    now apply shape2_eqb_spec in E. }
  unfold py_assert. rewrite E.
  now rewrite (bind_raise (raise AssertionError) _ h AssertionError h eq_refl).
Qed.

Lemma init_lambda_mismatch q l0 h a :
  vecs h !! l0 = Some a ->
  shape1 a <> q ->
  init_lambda_ random_normal1 q (Some l0) h = (Raise AssertionError, h).
Proof.
  intros Hl Hs. unfold init_lambda_.
  rewrite (bind_ok _ _ _ _ _ (get_vec_ok _ _ _ Hl)).
  apply Z.eqb_neq in Hs. unfold py_assert. rewrite Hs.
  now rewrite (bind_raise (raise AssertionError) _ h AssertionError h eq_refl).
Qed.

(** C6 (amended).  Construction with an initial guess of the wrong shape
    fails with the assertion error, in [__init__] and in the driver alike,
    and no estimator is made: a [Uhat0] whose shape is not [(d, q)] fails
    at once, the heap as it was, and a [lambda0] whose shape is not [(q,)]
    fails once [Uhat] is there, the heap holding that array and no other
    new one.  ([q = 0] and [q > d] are not tested for.) *)
Theorem construction_shape_mismatch q d ell cython X n_epoch error_options
    h :
  (forall U0 A lambda0,
      mats h !! U0 = Some A ->
      shape2 A <> (d, q) ->
      __init__ random_normal1 random_normal2 q d (Some U0) lambda0 ell cython
        h
      = (Raise AssertionError, h)) /\
  (forall Uhat0 l0 a U h1,
      init_Uhat random_normal2 q d Uhat0 h = (Ok U, h1) ->
      vecs h !! l0 = Some a ->
      shape1 a <> q ->
      __init__ random_normal1 random_normal2 q d Uhat0 (Some l0) ell cython h
      = (Raise AssertionError, h1)) /\
  (forall (XA : matrix F) U0 A lambda0,
      mats h !! X = Some XA ->
      mats h !! U0 = Some A ->
      shape2 A <> (fst (shape2 XA), q) ->
      CCIPCA random_normal1 random_normal2 initialize_errors compute_errors
        X q n_epoch error_options (Some U0) lambda0 ell h
      = (Raise AssertionError, h)) /\
  (forall (XA : matrix F) Uhat0 l0 a U h1,
      mats h !! X = Some XA ->
      init_Uhat random_normal2 q (fst (shape2 XA)) Uhat0 h = (Ok U, h1) ->
      vecs h !! l0 = Some a ->
      shape1 a <> q ->
      CCIPCA random_normal1 random_normal2 initialize_errors compute_errors
        X q n_epoch error_options Uhat0 (Some l0) ell h
      = (Raise AssertionError, h1)).
Proof.
  split; [| split; [| split]].
  - intros U0 A lambda0 HU Hs. unfold __init__.
    now rewrite (bind_raise _ _ _ _ _ (init_Uhat_mismatch q d U0 h A HU Hs)).
  - intros Uhat0 l0 a U h1 HU Hl Hs. unfold __init__.
    rewrite (bind_ok _ _ _ _ _ HU).
    destruct (init_Uhat_inv _ _ _ _ _ _ HU) as (_ & Ev & _).
    assert (Hl1 : vecs h1 !! l0 = Some a) by now rewrite Ev.
    now rewrite (bind_raise _ _ _ _ _ (init_lambda_mismatch q l0 h1 a Hl1 Hs)).
  - intros XA U0 A lambda0 HX HU Hs. unfold CCIPCA.
    rewrite (bind_ok _ _ _ _ _ (get_mat_ok _ _ _ HX)).
    now rewrite (bind_raise _ _ _ _ _
                   (init_Uhat_mismatch q _ U0 h A HU Hs)).
  - intros XA Uhat0 l0 a U h1 HX HU Hl Hs. unfold CCIPCA.
    rewrite (bind_ok _ _ _ _ _ (get_mat_ok _ _ _ HX)).
    rewrite (bind_ok _ _ _ _ _ HU).
    destruct (init_Uhat_inv _ _ _ _ _ _ HU) as (_ & Ev & _).
    assert (Hl1 : vecs h1 !! l0 = Some a) by now rewrite Ev.
    now rewrite (bind_raise _ _ _ _ _ (init_lambda_mismatch q l0 h1 a Hl1 Hs)).
Qed.

(** ** The batch update *)

(** Whatever the batch kernel does, [fit] leaves the counter as it was. *)
Lemma fit_counter self X h self' h' :
  fit coord_update_total self X h = (Ok self', h') ->
  self_t self' = self_t self.
Proof.
  unfold fit. intros E.
  apply bind_inv_ok in E as (XA & h1 & _ & E).
  apply bind_inv_ok in E as (r & h2 & _ & E).
  now injection E as <- _.
Qed.

(** ** Construction and isolation *)

Lemma arrays_of_pair self h (lA : list F * matrix F) :
  vecs h !! self_lambda_ self = Some (fst lA) ->
  mats h !! self_Uhat self = Some (snd lA) ->
  arrays_of self h = Some lA.
Proof. destruct lA as [lv A]. intros. now apply arrays_of_Some. Qed.

Lemma init_Uhat_supplied q d U0 h A :
  mats h !! U0 = Some A ->
  shape2 A = (d, q) ->
  init_Uhat random_normal2 q d (Some U0) h
  = (Ok (fresh (dom (mats h))),
     Heap (vecs h) (<[fresh (dom (mats h)) := A]> (mats h)) (rng h)).
Proof.
  intros HU SA. unfold init_Uhat.
  rewrite (bind_ok _ _ _ _ _ (get_mat_ok _ _ _ HU)).
  apply shape2_eqb_spec in SA. unfold py_assert. rewrite SA.
  now rewrite (bind_ok _ _ h tt h eq_refl).
Qed.

Lemma init_lambda_supplied q l0 h a :
  vecs h !! l0 = Some a ->
  shape1 a = q ->
  init_lambda_ random_normal1 q (Some l0) h
  = (Ok (fresh (dom (vecs h))),
     Heap (<[fresh (dom (vecs h)) := a]> (vecs h)) (mats h) (rng h)).
Proof.
  intros Hl Sa. unfold init_lambda_.
  rewrite (bind_ok _ _ _ _ _ (get_vec_ok _ _ _ Hl)).
  unfold py_assert. rewrite Sa, Z.eqb_refl.
  now rewrite (bind_ok _ _ h tt h eq_refl).
Qed.

(** The constructor on initial guesses of the right shapes, step by step:
    the estimator it returns and the heap it leaves. *)
Lemma __init___supplied_run q d U0 l0 ell cython h A a :
  mats h !! U0 = Some A ->
  vecs h !! l0 = Some a ->
  shape2 A = (d, q) ->
  shape1 a = q ->
  exists U lam v h',
    __init__ random_normal1 random_normal2 q d (Some U0) (Some l0) ell cython h
    = (Ok {| self_Uhat := U; self_t := 1; self_lambda_ := lam;
             self_q := q; self_d := d; self_ell := ell;
             self_cython := cython; self_v := v |}, h') /\
    U = fresh (dom (mats h)) /\
    lam = fresh (dom (vecs h)) /\
    v <> lam /\
    mats h' = <[U := A]> (mats h) /\
    vecs h' = <[v := zeros (Z.to_nat d)]> (<[lam := a]> (vecs h)) /\
    (forall l, is_Some (vecs h !! l) -> v <> l) /\
    rng h' = rng h.
Proof.
  intros HU Hl SA Sa.
  set (U := fresh (dom (mats h))).
  set (hU := Heap (vecs h) (<[U := A]> (mats h)) (rng h)).
  set (lam := fresh (dom (vecs h))).
  set (hl := Heap (<[lam := a]> (vecs hU)) (mats hU) (rng hU)).
  set (v := fresh (dom (vecs hl))).
  set (hv := Heap (<[v := zeros (Z.to_nat d)]> (vecs hl)) (mats hl) (rng hl)).
  assert (Ev : np_zeros d hl = (Ok v, hv)).
  { unfold np_zeros.
    assert (Hd : (d <? 0) = false).
    { unfold shape2 in SA. injection SA as <- _. apply Z.ltb_ge. lia. }
    now rewrite Hd. }
  exists U, lam, v, hv. split.
  - unfold __init__.
    rewrite (bind_ok _ _ _ _ _ (init_Uhat_supplied q d U0 h A HU SA)).
    rewrite (bind_ok _ _ _ _ _ (init_lambda_supplied q l0 hU a Hl Sa)).
    now rewrite (bind_ok _ _ _ _ _ Ev).
  - repeat split; auto.
    + apply fresh_allocated. cbn. rewrite lookup_insert_eq. eauto.
    + intros l Hs. apply fresh_allocated. cbn.
      destruct (decide (lam = l)) as [->|Hne].
      * rewrite lookup_insert_eq. eauto.
      * now rewrite lookup_insert_ne.
Qed.

(** X1.  From initial guesses of the right shapes the constructor returns
    an estimator with counter 1 that is well formed and holds copies of the
    guesses, at references of its own: the caller's arrays, and every other
    array of the heap, are as they were. *)
Theorem __init___copies_guesses q d U0 l0 ell cython h A a :
  mats h !! U0 = Some A ->
  vecs h !! l0 = Some a ->
  shape2 A = (d, q) ->
  shape1 a = q ->
  rectangular A ->
  exists self h',
    __init__ random_normal1 random_normal2 q d (Some U0) (Some l0) ell cython h
    = (Ok self, h') /\
    well_formed self h' /\
    arrays_of self h' = Some (a, A) /\
    self_t self = 1 /\
    self_Uhat self <> U0 /\
    self_lambda_ self <> l0 /\
    (forall l, is_Some (vecs h !! l) -> vecs h' !! l = vecs h !! l) /\
    (forall l, is_Some (mats h !! l) -> mats h' !! l = mats h !! l) /\
    rng h' = rng h.
Proof.
  intros HU Hl SA Sa HrA.
  destruct (__init___supplied_run q d U0 l0 ell cython h A a HU Hl SA Sa)
    as (U & lam & v & h' & Erun & EU & El & Hv & Em & Ev & Hfresh & Er).
  eexists _, h'. split; [exact Erun |].
  assert (H1 : vecs h' !! lam = Some a).
  { rewrite Ev, lookup_insert_ne by exact Hv. apply lookup_insert_eq. }
  assert (H2 : mats h' !! U = Some A) by (rewrite Em; apply lookup_insert_eq).
  cbn [self_Uhat self_lambda_ self_t].
  split; [| split; [| split; [| split; [| split; [| split; [| split]]]]]].
  - exists a, A. cbn [self_lambda_ self_Uhat self_q self_d self_t].
    repeat split; auto. lia.
  - apply arrays_of_Some. auto.
  - reflexivity.
  - rewrite EU. apply fresh_allocated_mat. eauto.
  - rewrite El. apply fresh_allocated. eauto.
  - intros l Hs. rewrite Ev.
    rewrite lookup_insert_ne by (now apply Hfresh).
    rewrite lookup_insert_ne; [reflexivity |].
    rewrite El. now apply fresh_allocated.
  - intros l Hs. rewrite Em. rewrite lookup_insert_ne; [reflexivity |].
    rewrite EU. now apply fresh_allocated_mat.
  - exact Er.
Qed.

(** X2.  An estimator built from the caller's initial guesses never writes
    to them: after the construction and a first call of [fit_next] on the
    portable path, [Uhat0], [lambda0] and the sample are as the caller
    passed them, and the estimator holds the guesses updated once, at
    counter 1. *)
Theorem guesses_survive_update q d U0 l0 ell x_ in_place h A a xv :
  mats h !! U0 = Some A ->
  vecs h !! l0 = Some a ->
  shape2 A = (d, q) ->
  shape1 a = q ->
  rectangular A ->
  vecs h !! x_ = Some xv ->
  shape1 xv = d ->
  exists self h1 self' h2,
    __init__ random_normal1 random_normal2 q d (Some U0) (Some l0) ell false h
    = (Ok self, h1) /\
    fit_next coord_update self x_ in_place h1 = (Ok self', h2) /\
    self_t self' = 2 /\
    arrays_of self' h2 = Some (absorb ell (Z.to_nat q) (a, A) 1 xv) /\
    mats h2 !! U0 = Some A /\
    vecs h2 !! l0 = Some a /\
    vecs h2 !! x_ = Some xv.
Proof.
  intros HU Hl SA Sa HrA Hx Sx.
  destruct (__init___supplied_run q d U0 l0 ell false h A a HU Hl SA Sa)
    as (U & lam & v & h1 & Erun & EU & El & Hv & Em & Ev & Hfresh & Er).
  set (self := {| self_Uhat := U; self_t := 1; self_lambda_ := lam;
                  self_q := q; self_d := d; self_ell := ell;
                  self_cython := false; self_v := v |}) in *.
  assert (Hlam : forall l, is_Some (vecs h !! l) -> l <> lam).
  { intros l Hs E. revert E. rewrite El. intros E. symmetry in E. revert E.
    now apply fresh_allocated. }
  assert (Hold : forall l, is_Some (vecs h !! l) ->
                           vecs h1 !! l = vecs h !! l).
  { intros l Hs. rewrite Ev.
    rewrite lookup_insert_ne by (now apply Hfresh).
    rewrite lookup_insert_ne; [reflexivity |].
    intros E. now apply (Hlam l Hs). }
  assert (H1 : vecs h1 !! lam = Some a).
  { rewrite Ev, lookup_insert_ne by exact Hv. apply lookup_insert_eq. }
  assert (H2 : mats h1 !! U = Some A) by (rewrite Em; apply lookup_insert_eq).
  assert (HUU : U0 <> U).
  { rewrite EU. intros E. symmetry in E. revert E.
    apply fresh_allocated_mat. eauto. }
  assert (Hwf : well_formed self h1).
  { exists a, A. cbn [self self_lambda_ self_Uhat self_q self_d self_t].
    repeat split; auto. lia. }
  assert (Ha : arrays_of self h1 = Some (a, A)) by (apply arrays_of_Some; auto).
  assert (Hx1 : vecs h1 !! x_ = Some xv) by (rewrite Hold; eauto).
  assert (Halias : in_place = true -> x_ <> self_lambda_ self).
  { intros _. apply Hlam. eauto. }
  destruct (fit_next_reference_run self x_ in_place h1 a A xv
              eq_refl Hwf Ha Hx1 Sx Halias)
    as (x' & h2 & Hrun & Hpost).
  destruct Hpost as (P1 & P2 & _ & _ & P5 & P6 & _).
  exists self, h1, (set_t self (self_t self + 1)), h2.
  split; [exact Erun |]. split; [exact Hrun |]. split; [reflexivity |].
  split; [| split; [| split]].
  - apply arrays_of_pair; [exact P1 | exact P2].
  - rewrite P6 by exact HUU. rewrite Em. now rewrite lookup_insert_ne.
  - rewrite P5; [rewrite Hold; eauto | apply Hlam; eauto |].
    rewrite Hold; eauto.
  - rewrite P5; [rewrite Hold; eauto | apply Hlam; eauto |].
    rewrite Hold; eauto.
Qed.

(** X3.  Without an initial guess for [Uhat] the scale of the draw is
    [1 / d]: the constructor raises [ZeroDivisionError] when [d] is 0, and
    the draw raises [ValueError] when [d] or [q] is negative; the driver
    does the same on a sample matrix with no row, and on a negative [q].
    All of that comes before [lambda0] is looked at, and leaves the heap as
    it was. *)
Theorem construction_without_guess_errors :
  (forall q lambda0 ell cython h,
      __init__ random_normal1 random_normal2 q 0 None lambda0 ell cython h
      = (Raise ZeroDivisionError, h)) /\
  (forall q d lambda0 ell cython h,
      d <> 0 -> d < 0 \/ q < 0 ->
      __init__ random_normal1 random_normal2 q d None lambda0 ell cython h
      = (Raise ValueError, h)) /\
  (forall X (XA : matrix F) q n_epoch error_options lambda0 ell h,
      mats h !! X = Some XA ->
      nrows XA = 0%nat ->
      CCIPCA random_normal1 random_normal2 initialize_errors compute_errors
        X q n_epoch error_options None lambda0 ell h
      = (Raise ZeroDivisionError, h)) /\
  (forall X (XA : matrix F) q n_epoch error_options lambda0 ell h,
      mats h !! X = Some XA ->
      nrows XA <> 0%nat ->
      q < 0 ->
      CCIPCA random_normal1 random_normal2 initialize_errors compute_errors
        X q n_epoch error_options None lambda0 ell h
      = (Raise ValueError, h)).
Proof.
  assert (Hzero : forall q h,
             init_Uhat random_normal2 q 0 None h
             = (Raise ZeroDivisionError, h)).
  { intros q h. reflexivity. }
  assert (Hneg : forall q d h,
             d <> 0 -> d < 0 \/ q < 0 ->
             init_Uhat random_normal2 q d None h = (Raise ValueError, h)).
  { intros q d h Hd Hqd. unfold init_Uhat.
    rewrite (bind_ok _ _ _ _ _ (py_truediv_ok 1 d h Hd)).
    assert (E : (d <? 0) || (q <? 0) = true).
    { apply orb_true_iff. rewrite !Z.ltb_lt. exact Hqd. }
    unfold bind, np_random_normal2. now rewrite E. }
  split; [| split; [| split]].
  - intros q lambda0 ell cython h. unfold __init__.
    now rewrite (bind_raise _ _ _ _ _ (Hzero q h)).
  - intros q d lambda0 ell cython h Hd Hqd. unfold __init__.
    now rewrite (bind_raise _ _ _ _ _ (Hneg q d h Hd Hqd)).
  - intros X XA q n_epoch eo lambda0 ell h HX Hn. unfold CCIPCA.
    rewrite (bind_ok _ _ _ _ _ (get_mat_ok _ _ _ HX)).
    cbn [shape2 fst snd]. rewrite Hn.
    now rewrite (bind_raise _ _ _ _ _ (Hzero q h)).
  - intros X XA q n_epoch eo lambda0 ell h HX Hn Hq. unfold CCIPCA.
    rewrite (bind_ok _ _ _ _ _ (get_mat_ok _ _ _ HX)).
    cbn [shape2 fst snd].
    rewrite (bind_raise _ _ _ _ _
               (Hneg q (Z.of_nat (nrows XA)) h ltac:(lia) (or_intror Hq))).
    reflexivity.
Qed.

(** X4.  With no initial guess, a positive [d] and a [q] that is not
    negative, the constructor returns a well-formed estimator with counter
    1, provided the generator gives arrays of the shapes it is asked for;
    it allocates, and writes to no array that was there. *)
Theorem __init___random_well_formed q d ell cython h :
  draws_shaped random_normal1 random_normal2 ->
  0 < d ->
  0 <= q ->
  exists self h',
    __init__ random_normal1 random_normal2 q d None None ell cython h
    = (Ok self, h') /\
    well_formed self h' /\
    self_t self = 1 /\
    (forall l, is_Some (vecs h !! l) -> vecs h' !! l = vecs h !! l) /\
    (forall l, is_Some (mats h !! l) -> mats h' !! l = mats h !! l).
Proof.
  intros [Hd1 Hd2] Hd Hq.
  destruct (random_normal2 (f_of_Z 0) (f_div (f_of_Z 1) (f_of_Z d))
              (Z.to_nat d) (Z.to_nat q) (rng h)) as [A g1] eqn:EA.
  destruct (random_normal1 (f_of_Z 0) (f_of_Z 1) (Z.to_nat q) g1)
    as [a g2] eqn:Ea.
  pose proof (Hd2 (f_of_Z 0) (f_div (f_of_Z 1) (f_of_Z d))
                (Z.to_nat d) (Z.to_nat q) (rng h)) as (SA1 & SA2 & SA3).
  rewrite EA in SA1, SA2, SA3. cbn [fst] in SA1, SA2, SA3.
  pose proof (Hd1 (f_of_Z 0) (f_of_Z 1) (Z.to_nat q) g1) as Sa.
  rewrite Ea in Sa. cbn [fst] in Sa.
  set (U := fresh (dom (mats h))).
  set (hU := Heap (vecs h) (<[U := A]> (mats h)) g1).
  set (lam := fresh (dom (vecs h))).
  set (lv := vdiv a (f_sqrt (f_of_Z q))).
  set (hl := Heap (<[lam := lv]> (vecs h)) (mats hU) g2).
  set (v := fresh (dom (vecs hl))).
  set (hv := Heap (<[v := zeros (Z.to_nat d)]> (vecs hl)) (mats hl) g2).
  assert (EU : init_Uhat random_normal2 q d None h = (Ok U, hU)).
  { unfold init_Uhat.
    rewrite (bind_ok _ _ _ _ _ (py_truediv_ok 1 d h ltac:(lia))).
    assert (Er : np_random_normal2 random_normal2 (f_of_Z 0)
                   (f_div (f_of_Z 1) (f_of_Z d)) d q h
                 = (Ok A, Heap (vecs h) (mats h) g1)).
    { unfold np_random_normal2.
      replace ((d <? 0) || (q <? 0)) with false.
      - now rewrite EA.
      - symmetry. apply orb_false_iff. rewrite !Z.ltb_ge. lia. }
    now rewrite (bind_ok _ _ _ _ _ Er). }
  assert (El : init_lambda_ random_normal1 q None hU = (Ok lam, hl)).
  { unfold init_lambda_.
    assert (Er : np_random_normal1 random_normal1 (f_of_Z 0) (f_of_Z 1) q hU
                 = (Ok a, Heap (vecs hU) (mats hU) g2)).
    { unfold np_random_normal1.
      replace (q <? 0) with false by (symmetry; apply Z.ltb_ge; lia).
      cbn [rng hU]. now rewrite Ea. }
    now rewrite (bind_ok _ _ _ _ _ Er). }
  assert (Ev : np_zeros d hl = (Ok v, hv)).
  { unfold np_zeros.
    replace (d <? 0) with false by (symmetry; apply Z.ltb_ge; lia).
    reflexivity. }
  assert (Hv : v <> lam).
  { apply fresh_allocated. cbn. rewrite lookup_insert_eq. eauto. }
  eexists _, hv. split.
  - unfold __init__.
    rewrite (bind_ok _ _ _ _ _ EU), (bind_ok _ _ _ _ _ El).
    now rewrite (bind_ok _ _ _ _ _ Ev).
  - cbn [self_t]. split; [| split; [reflexivity | split]].
    + exists lv, A. cbn [self_lambda_ self_Uhat self_q self_d self_t].
      split.
      { cbn. rewrite lookup_insert_ne by exact Hv. apply lookup_insert_eq. }
      split; [cbn; apply lookup_insert_eq |].
      split; [unfold shape1, lv; rewrite length_vdiv; lia |].
      split; [unfold shape2; f_equal; lia |].
      split; [exact SA3 | lia].
    + intros l Hs. cbn.
      rewrite lookup_insert_ne.
      * rewrite lookup_insert_ne; [reflexivity |].
        now apply fresh_allocated.
      * apply fresh_allocated. cbn.
        rewrite lookup_insert_ne; [exact Hs |].
        now apply fresh_allocated.
    + intros l Hs. cbn. rewrite lookup_insert_ne; [reflexivity |].
      now apply fresh_allocated_mat.
Qed.

(** X5.  On a sample matrix and initial guesses of matching shapes the
    driver with no evaluator returns: it gives back a reference to a new
    array, and every array that was on the heap ([X], [Uhat0] and [lambda0]
    among them) and the generator are as they were. *)
Theorem CCIPCA_keeps_inputs X (XA : matrix F) q n_epoch U0 A l0 a ell h :
  mats h !! X = Some XA ->
  rectangular XA ->
  mats h !! U0 = Some A ->
  vecs h !! l0 = Some a ->
  shape2 A = (Z.of_nat (nrows XA), q) ->
  shape1 a = q ->
  rectangular A ->
  exists U h',
    CCIPCA random_normal1 random_normal2 initialize_errors compute_errors
      X q n_epoch None (Some U0) (Some l0) ell h
    = (Ok (PyMatrix U), h') /\
    mats h !! U = None /\
    is_Some (mats h' !! U) /\
    (forall l, is_Some (vecs h !! l) -> vecs h' !! l = vecs h !! l) /\
    (forall l, is_Some (mats h !! l) -> mats h' !! l = mats h !! l) /\
    rng h' = rng h.
Proof.
  clear coord_update coord_update_total.
  intros HX HrX HU Hl SA Sa HrA.
  set (U := fresh (dom (mats h))).
  set (hU := Heap (vecs h) (<[U := A]> (mats h)) (rng h)).
  set (lam := fresh (dom (vecs h))).
  set (hl := Heap (<[lam := a]> (vecs h)) (mats hU) (rng h)).
  pose proof (init_Uhat_supplied q _ U0 h A HU SA) as EU.
  pose proof (init_lambda_supplied q l0 hU a Hl Sa) as El.
  fold U hU in EU. change (init_lambda_ random_normal1 q (Some l0) hU
                           = (Ok lam, hl)) in El.
  assert (HXU : X <> U).
  { intros E. symmetry in E. revert E. apply fresh_allocated_mat. eauto. }
  unfold shape1 in Sa. unfold shape2 in SA. injection SA as SA1 SA2.
  destruct (_iterate_run ell lam U X q
              (n_epoch * Z.of_nat (length (columns XA))) XA hl a A)
    as (h' & Hit & Hpost).
  - cbn. apply lookup_insert_eq.
  - cbn. apply lookup_insert_eq.
  - cbn. now rewrite lookup_insert_ne.
  - exact HXU.
  - exact HrX.
  - repeat split; cbn; auto; lia.
  - lia.
  - lia.
  - destruct Hpost as (P1 & P2 & P3 & P4 & P5).
    exists U, h'. split; [| split; [| split; [| split; [| split]]]].
    + unfold CCIPCA.
      rewrite (bind_ok _ _ _ _ _ (get_mat_ok _ _ _ HX)).
      cbn [shape2 fst snd].
      rewrite (bind_ok _ _ _ _ _ EU), (bind_ok _ _ _ _ _ El).
      now rewrite (bind_ok _ _ _ _ _ Hit).
    + apply not_elem_of_dom. apply is_fresh.
    + rewrite P2. eauto.
    + intros l Hs.
      assert (Hne : l <> lam).
      { intros E. symmetry in E. revert E. now apply fresh_allocated. }
      assert (Hhl : vecs hl !! l = vecs h !! l).
      { cbn. rewrite lookup_insert_ne; auto. }
      rewrite P3; [exact Hhl | exact Hne | now rewrite Hhl].
    + intros l Hs.
      assert (Hne : l <> U).
      { intros E. symmetry in E. revert E. now apply fresh_allocated_mat. }
      rewrite P4 by exact Hne. cbn. now rewrite lookup_insert_ne.
    + exact P5.
Qed.

(** X6.  When [n_epoch * n <= 1] (a sample matrix of one column taken for
    one epoch, no column, or no epoch) the loop of the driver has no pass:
    the driver gives back the initial estimate as it made it, and the heap
    is the one the initialization left; with an evaluator it gives back the
    container as [util.initialize_errors] made it, and the evaluator is not
    called. *)
Theorem CCIPCA_no_update X (XA : matrix F) q n_epoch Uhat0 lambda0 ell
    h U h1 lam h2 :
  mats h !! X = Some XA ->
  init_Uhat random_normal2 q (Z.of_nat (nrows XA)) Uhat0 h = (Ok U, h1) ->
  init_lambda_ random_normal1 q lambda0 h1 = (Ok lam, h2) ->
  n_epoch * Z.of_nat (length (columns XA)) <= 1 ->
  CCIPCA random_normal1 random_normal2 initialize_errors compute_errors
    X q n_epoch None Uhat0 lambda0 ell h
  = (Ok (PyMatrix U), h2) /\
  (forall o,
      CCIPCA random_normal1 random_normal2 initialize_errors compute_errors
        X q n_epoch (Some o) Uhat0 lambda0 ell h
      = (errs <- initialize_errors o
                   (n_epoch * Z.of_nat (length (columns XA))) ;;
         ret (PyErrs errs)) h2).
Proof.
  intros HX EU El Hn.
  assert (Hr : py_range 1 (n_epoch * Z.of_nat (length (columns XA))) = []).
  { unfold py_range.
    replace (Z.to_nat (n_epoch * Z.of_nat (length (columns XA)) - 1))
      with 0%nat by lia.
    reflexivity. }
  split.
  - unfold CCIPCA.
    rewrite (bind_ok _ _ _ _ _ (get_mat_ok _ _ _ HX)).
    cbn [shape2 fst snd].
    rewrite (bind_ok _ _ _ _ _ EU), (bind_ok _ _ _ _ _ El).
    unfold _iterate. rewrite Hr. reflexivity.
  - intros o. unfold CCIPCA.
    rewrite (bind_ok _ _ _ _ _ (get_mat_ok _ _ _ HX)).
    cbn [shape2 fst snd].
    rewrite (bind_ok _ _ _ _ _ EU), (bind_ok _ _ _ _ _ El).
    unfold _iterate_and_compute_errors. rewrite Hr.
    rewrite bind_assoc. apply bind_cong; [reflexivity |].
    intros errs h3. reflexivity.
Qed.

(** ** Sequences of calls *)

(** X7.  The invariant is kept, in every arithmetic: a call of [fit_next]
    on the portable path, on a well-formed estimator and a sample of shape
    [(d,)], returns an estimator that is well formed again, with the same
    [q], [d] and [ell] and the next counter. *)
Theorem fit_next_well_formed self x_ in_place h lv A xv :
  self_cython self = false ->
  well_formed self h ->
  arrays_of self h = Some (lv, A) ->
  vecs h !! x_ = Some xv ->
  shape1 xv = self_d self ->
  (in_place = true -> x_ <> self_lambda_ self) ->
  exists self' h',
    fit_next coord_update self x_ in_place h = (Ok self', h') /\
    well_formed self' h' /\
    self_t self' = self_t self + 1 /\
    (self_q self', self_d self', self_ell self', self_cython self')
    = (self_q self, self_d self, self_ell self, self_cython self).
Proof.
  intros Hcy Hwf Ha Hx Hsx Halias.
  destruct (fit_next_reference_run_wf self x_ in_place h lv A xv)
    as (x' & h' & Hrun & _ & Hwf'); auto.
  exists (set_t self (self_t self + 1)), h'.
  split; [exact Hrun |]. split; [exact Hwf' |]. split; reflexivity.
Qed.

Lemma number_from_app t (l1 l2 : list Z) :
  number_from t (l1 ++ l2)
  = number_from t l1 ++ number_from (t + Z.of_nat (length l1)) l2.
Proof.
  revert t. induction l1 as [|j l1 IH]; intros t; cbn [number_from app length].
  - f_equal. lia.
  - rewrite IH. do 3 f_equal. lia.
Qed.

Lemma est_post_refl lam U h (lA : list F * matrix F) :
  vecs h !! lam = Some (fst lA) -> mats h !! U = Some (snd lA) ->
  est_post lam U h h lA.
Proof. intros H1 H2. repeat split; auto. Qed.

(** One pass over the columns [js] of [X1]. *)
Lemma feed_pass X1 (XA : matrix F) (js : list Z) :
  forall self h lv A,
    self_cython self = false ->
    well_formed self h ->
    arrays_of self h = Some (lv, A) ->
    mats h !! X1 = Some XA ->
    X1 <> self_Uhat self ->
    rectangular XA ->
    Z.of_nat (nrows XA) = self_d self ->
    Forall (fun j => 0 <= j < Z.of_nat (length (columns XA))) js ->
    exists h',
      for_each js
        (fun j self' => x <- view_column X1 j ;;
                        fit_next coord_update self' x true) self h
      = (Ok (set_t self (self_t self + Z.of_nat (length js))), h') /\
      est_post (self_lambda_ self) (self_Uhat self) h h'
        (absorb_all (self_ell self) (Z.to_nat (self_q self)) XA
           (number_from (self_t self) js) (lv, A)) /\
      well_formed (set_t self (self_t self + Z.of_nat (length js))) h'.
Proof.
  induction js as [|j js IH];
    intros self h lv A Hcy Hwf Ha HX HXU HrX Hd Hjs.
  - exists h. cbn [for_each length number_from absorb_all fold_left].
    replace (self_t self + Z.of_nat 0) with (self_t self) by lia.
    assert (E : set_t self (self_t self) = self) by now destruct self.
    rewrite E. apply arrays_of_Some in Ha as [H1 H2].
    split; [reflexivity |]. split; [now apply est_post_refl | exact Hwf].
  - apply Forall_cons in Hjs as [Hj Hjs].
    pose proof (column_lookup XA j Hj) as Hcol.
    assert (Hlen : length (column XA j) = nrows XA).
    { eapply Forall_lookup_1 in HrX; eauto. }
    pose proof Ha as Ha0. apply arrays_of_Some in Ha0 as [Hlam HU].
    set (x0 := fresh (dom (vecs h))).
    set (h0 := Heap (<[x0 := column XA j]> (vecs h)) (mats h) (rng h)).
    assert (Hfr : forall l, is_Some (vecs h !! l) ->
                            vecs h0 !! l = vecs h !! l).
    { intros l Hl. cbn. rewrite lookup_insert_ne; auto.
      now apply fresh_allocated. }
    assert (Hlam0 : vecs h0 !! self_lambda_ self = Some lv).
    { rewrite Hfr; eauto. }
    assert (Hwf0 : well_formed self h0).
    { destruct Hwf as (lv0 & A0 & W1 & W2 & W).
      exists lv0, A0. split; [rewrite Hfr; eauto | split; [exact W2 | exact W]]. }
    assert (Ha0 : arrays_of self h0 = Some (lv, A)).
    { apply arrays_of_Some. auto. }
    destruct (fit_next_reference_run_wf self x0 true h0 lv A (column XA j))
      as (x' & h1 & Hrun & Hpost & Hwf1); auto.
    { cbn. apply lookup_insert_eq. }
    { unfold shape1. lia. }
    { intros _. apply fresh_allocated. eauto. }
    pose proof (loop_post_est _ _ _ _ _ _
                  (loop_post_frame _ _ h0 h _ _ _ Hpost Hfr eq_refl eq_refl))
      as Hest.
    fold (absorb (self_ell self) (Z.to_nat (self_q self)) (lv, A)
            (self_t self) (column XA j)) in Hest.
    set (lA1 := absorb (self_ell self) (Z.to_nat (self_q self)) (lv, A)
                  (self_t self) (column XA j)) in *.
    pose proof Hest as (E1 & E2 & _ & E4 & _).
    destruct (IH (set_t self (self_t self + 1)) h1 (fst lA1) (snd lA1))
      as (h' & Hfor & Hpost' & Hwf'); auto.
    + now apply arrays_of_pair.
    + cbn [set_t self_Uhat]. rewrite E4 by exact HXU. exact HX.
    + exists h'.
      assert (Eself :
                set_t (set_t self (self_t self + 1))
                  (self_t (set_t self (self_t self + 1))
                   + Z.of_nat (length js))
                = set_t self (self_t self + Z.of_nat (length (j :: js)))).
      { unfold set_t. cbn [self_Uhat self_t self_lambda_ self_q self_d
                             self_ell self_cython self_v length].
        f_equal. lia. }
      rewrite Eself in Hfor, Hwf'.
      split; [| split; [| exact Hwf']].
      * cbn [for_each].
        erewrite bind_ok.
        2:{ rewrite (bind_ok _ _ _ _ _ (view_column_ok _ _ _ _ _ HX Hcol)).
            exact Hrun. }
        exact Hfor.
      * cbn [number_from absorb_all fold_left fst snd].
        cbn [set_t self_lambda_ self_Uhat self_ell self_q self_t] in Hpost'.
        rewrite <- surjective_pairing in Hpost'.
        eapply est_post_trans; [exact Hest | exact Hpost'].
Qed.

(** The passes of the outer loop, one for each element of [es]. *)
Lemma feed_passes X1 (XA : matrix F) (es : list Z) :
  forall self h lv A,
    self_cython self = false ->
    well_formed self h ->
    arrays_of self h = Some (lv, A) ->
    mats h !! X1 = Some XA ->
    X1 <> self_Uhat self ->
    rectangular XA ->
    Z.of_nat (nrows XA) = self_d self ->
    exists h',
      for_each es
        (fun (n_e : Z) self' =>
           A' <- get_mat X1 ;;
           for_each (py_range 0 (snd (shape2 A')))
             (fun j self'' => x <- view_column X1 j ;;
                              fit_next coord_update self'' x true) self')
        self h
      = (Ok (set_t self
               (self_t self
                + Z.of_nat (length es) * Z.of_nat (length (columns XA)))),
         h') /\
      est_post (self_lambda_ self) (self_Uhat self) h h'
        (absorb_all (self_ell self) (Z.to_nat (self_q self)) XA
           (number_from (self_t self)
              (concat (repeat (py_range 0 (Z.of_nat (length (columns XA))))
                         (length es))))
           (lv, A)) /\
      well_formed
        (set_t self
           (self_t self
            + Z.of_nat (length es) * Z.of_nat (length (columns XA)))) h'.
Proof.
  set (n := Z.of_nat (length (columns XA))).
  induction es as [|e es IH]; intros self h lv A Hcy Hwf Ha HX HXU HrX Hd.
  - exists h. cbn [for_each length repeat concat number_from absorb_all
                     fold_left].
    replace (self_t self + Z.of_nat 0 * n) with (self_t self) by lia.
    assert (E : set_t self (self_t self) = self) by now destruct self.
    rewrite E. apply arrays_of_Some in Ha as [H1 H2].
    split; [reflexivity |]. split; [now apply est_post_refl | exact Hwf].
  - assert (Hjs : Forall (fun j => 0 <= j < n) (py_range 0 n)).
    { apply py_range_Forall. intros t Ht. lia. }
    destruct (feed_pass X1 XA (py_range 0 n) self h lv A)
      as (h1 & Hpass & Hest & Hwf1); auto.
    rewrite py_range_length in Hpass, Hwf1.
    replace (Z.of_nat (Z.to_nat (n - 0))) with n in Hpass, Hwf1 by lia.
    set (lA1 := absorb_all (self_ell self) (Z.to_nat (self_q self)) XA
                  (number_from (self_t self) (py_range 0 n)) (lv, A)) in *.
    pose proof Hest as (E1 & E2 & _ & E4 & _).
    destruct (IH (set_t self (self_t self + n)) h1 (fst lA1) (snd lA1))
      as (h' & Hfor & Hpost' & Hwf'); auto.
    + now apply arrays_of_pair.
    + cbn [set_t self_Uhat]. rewrite E4 by exact HXU. exact HX.
    + exists h'.
      assert (Eself :
                set_t (set_t self (self_t self + n))
                  (self_t (set_t self (self_t self + n))
                   + Z.of_nat (length es) * n)
                = set_t self
                    (self_t self + Z.of_nat (length (e :: es)) * n)).
      { unfold set_t. cbn [self_Uhat self_t self_lambda_ self_q self_d
                             self_ell self_cython self_v length].
        f_equal. lia. }
      rewrite Eself in Hfor, Hwf'.
      split; [| split; [| exact Hwf']].
      * cbn [for_each].
        erewrite bind_ok.
        2:{ rewrite (bind_ok _ _ _ _ _ (get_mat_ok _ _ _ HX)).
            cbn [shape2 snd]. exact Hpass. }
        exact Hfor.
      * cbn [length repeat concat]. rewrite number_from_app.
        unfold absorb_all. rewrite fold_left_app.
        fold (absorb_all (self_ell self) (Z.to_nat (self_q self)) XA
                (number_from (self_t self) (py_range 0 n)) (lv, A)).
        fold lA1. rewrite py_range_length.
        replace (Z.of_nat (Z.to_nat (n - 0))) with n by lia.
        cbn [set_t self_lambda_ self_Uhat self_ell self_q self_t] in Hpost'.
        rewrite <- surjective_pairing in Hpost'.
        eapply est_post_trans; [exact Hest | exact Hpost'].
Qed.

Lemma number_from_lookup (js : list Z) :
  forall t (k : nat) tj,
    number_from t js !! k = Some tj ->
    exists j, js !! k = Some j /\ tj = (t + Z.of_nat k, j).
Proof.
  induction js as [|j js IH]; intros t [|k] tj E; try discriminate.
  - injection E as <-. exists j. split; [reflexivity | f_equal; lia].
  - cbn in E. apply IH in E as (j' & E1 & ->).
    exists j'. split; [exact E1 | f_equal; lia].
Qed.

Lemma concat_repeat_lookup n (m : nat) :
  0 < n ->
  forall (k : nat) j,
    concat (repeat (py_range 0 n) m) !! k = Some j ->
    j = Z.of_nat k mod n.
Proof.
  intros Hn. induction m as [|m IH]; intros k j E; [discriminate |].
  cbn [repeat concat] in E.
  destruct (Nat.lt_ge_cases k (length (py_range 0 n))) as [Hk|Hk].
  - rewrite lookup_app_l in E by exact Hk.
    unfold py_range in E. rewrite map_lookup in E.
    destruct (seq 0 (Z.to_nat (n - 0)) !! k) as [k'|] eqn:Ek; [| discriminate].
    apply lookup_seq in Ek as [-> Hk']. injection E as <-.
    rewrite Z.mod_small; lia.
  - rewrite lookup_app_r in E by exact Hk.
    apply IH in E. rewrite py_range_length in E, Hk.
    rewrite E. replace (Z.of_nat (k - Z.to_nat (n - 0)))
      with (Z.of_nat k + (-1) * n) by lia.
    apply Z_mod_plus_full.
Qed.

(** X8.  The loop of the script on the portable path: feeding the columns
    of a d-by-n matrix [X1] for [n_epoch] epochs to a well-formed estimator
    returns; the estimator then holds the estimates that absorbing the
    columns [0 .. n-1], [n_epoch] times over, at consecutive counters from
    [t] gives (the [k]-th sample is column [k mod n], absorbed at counter
    [t + k]), its counter is [t + n_epoch * n], it is well formed, and [X1]
    is as it was. *)
Theorem feed_epochs_run self X1 (XA : matrix F) n_epoch h lv A :
  self_cython self = false ->
  well_formed self h ->
  arrays_of self h = Some (lv, A) ->
  mats h !! X1 = Some XA ->
  X1 <> self_Uhat self ->
  rectangular XA ->
  Z.of_nat (nrows XA) = self_d self ->
  exists self' h',
    feed_epochs coord_update self X1 n_epoch h = (Ok self', h') /\
    self_t self'
    = self_t self + Z.max 0 n_epoch * Z.of_nat (length (columns XA)) /\
    arrays_of self' h'
    = Some (absorb_all (self_ell self) (Z.to_nat (self_q self)) XA
              (stream_schedule (self_t self) n_epoch
                 (Z.of_nat (length (columns XA))))
              (lv, A)) /\
    (forall (k : nat) tj,
        stream_schedule (self_t self) n_epoch
          (Z.of_nat (length (columns XA))) !! k = Some tj ->
        tj = (self_t self + Z.of_nat k,
              Z.of_nat k mod Z.of_nat (length (columns XA)))) /\
    well_formed self' h' /\
    mats h' !! X1 = Some XA.
Proof.
  intros Hcy Hwf Ha HX HXU HrX Hd.
  destruct (feed_passes X1 XA (py_range 0 n_epoch) self h lv A)
    as (h' & Hrun & Hest & Hwf'); auto.
  rewrite py_range_length in Hrun, Hest, Hwf'.
  replace (n_epoch - 0) with n_epoch in Hrun, Hest, Hwf' by lia.
  eexists _, h'. split; [exact Hrun |].
  destruct Hest as (E1 & E2 & _ & E4 & _).
  split; [cbn [set_t self_t]; lia |].
  split; [now apply arrays_of_pair |].
  split; [| split; [exact Hwf' |]].
  - intros k tj Hk. unfold stream_schedule in Hk.
    apply number_from_lookup in Hk as (j & Hj & ->). f_equal.
    destruct (Z.eq_dec (Z.of_nat (length (columns XA))) 0) as [E0|E0].
    + rewrite E0 in Hj. exfalso. revert Hj. clear.
      generalize (Z.to_nat n_epoch). intros m. revert k.
      induction m as [|m IH]; intros k Hj; [discriminate |].
      cbn in Hj. now apply IH in Hj.
    + eapply concat_repeat_lookup; [| exact Hj]. lia.
  - rewrite E4 by exact HXU. exact HX.
Qed.

(** The columns the loop has passed are normalised. *)
Lemma spec_step_normalised d t ell (s : estimate) (k : nat) :
  shaped d s ->
  (k < length (fst (fst s)))%nat ->
  normalised_upto k (fst s) ->
  normalised_upto (S k) (fst (spec_step t ell s k)).
Proof.
  destruct s as [[lv A] xv]. intros ((Hl & _ & _) & _) Hk Hinv.
  cbn [fst snd] in *. unfold spec_step.
  destruct (lookup_lt_is_Some_2 lv k Hk) as [lk Elk].
  destruct (lookup_lt_is_Some_2 (columns A) k) as [uk Euk]; [lia |].
  rewrite Elk, Euk. set (v := provisional t ell lk uk xv).
  intros i Hi. cbn [fst snd columns].
  destruct (Nat.eq_dec i k) as [->|Hik].
  - exists v. split; apply list_lookup_insert_eq; lia.
  - destruct (Hinv i) as (w & E1 & E2); [lia |].
    exists w. cbn [fst snd] in E1, E2.
    split; rewrite list_lookup_insert_ne; auto.
Qed.

Lemma spec_update_normalised d t ell (q : nat) (s : estimate) :
  shaped d s ->
  (q <= length (fst (fst s)))%nat ->
  normalised_upto q (fst (spec_update t ell q s)).
Proof.
  intros Hs. unfold spec_update. induction q as [|q IH]; intros Hq.
  - intros i Hi. lia.
  - rewrite seq_S, fold_left_app. cbn [fold_left Nat.add].
    destruct (fold_spec_step_shaped d t ell (seq 0 q) s Hs) as [Hsh Hlen].
    eapply spec_step_normalised; [exact Hsh | rewrite Hlen; lia |].
    apply IH. lia.
Qed.

(** X12.  A call of [fit_next] on the portable path writes to [lambda_] and
    [Uhat] and to nothing else that was there: every other array of the
    heap (the scratch array [self.v] among them, when it is not [lambda_])
    and the generator are as they were, and the estimator still refers to
    the same arrays. *)
Theorem fit_next_writes_estimates_only self x_ in_place h lv A xv :
  self_cython self = false ->
  well_formed self h ->
  arrays_of self h = Some (lv, A) ->
  vecs h !! x_ = Some xv ->
  shape1 xv = self_d self ->
  (in_place = true -> x_ <> self_lambda_ self) ->
  exists self' h',
    fit_next coord_update self x_ in_place h = (Ok self', h') /\
    (self_lambda_ self', self_Uhat self', self_v self')
    = (self_lambda_ self, self_Uhat self, self_v self) /\
    (forall l, l <> self_lambda_ self -> is_Some (vecs h !! l) ->
               vecs h' !! l = vecs h !! l) /\
    (forall l, l <> self_Uhat self -> mats h' !! l = mats h !! l) /\
    rng h' = rng h.
Proof.
  intros Hcy Hwf Ha Hx Hsx Halias.
  destruct (fit_next_reference_run self x_ in_place h lv A xv)
    as (x' & h' & Hrun & _ & _ & _ & _ & P5 & P6 & P7); auto.
  exists (set_t self (self_t self + 1)), h'.
  split; [exact Hrun |]. split; [reflexivity |].
  split; [exact P5 |]. split; [exact P6 | exact P7].
Qed.

Lemma number_from_length (js : list Z) :
  forall t, length (number_from t js) = length js.
Proof.
  induction js as [|j js IH]; intros t; [reflexivity |].
  cbn. now rewrite IH.
Qed.

Lemma concat_repeat_length (l : list Z) (m : nat) :
  length (concat (repeat l m)) = (m * length l)%nat.
Proof.
  induction m as [|m IH]; [reflexivity |].
  cbn [repeat concat]. rewrite length_app, IH. lia.
Qed.


End Run.

(** ** Unit norm, in real arithmetic *)

Section UnitNorm.
Context {G : Type}.
Variable coord_update :
  loc -> Z -> R -> R -> loc -> loc -> Z -> loc -> M R G (loc * loc).

Local Open Scope R_scope.

Lemma dot_vdiv_acc (c : R) (a : list R) :
  forall (b : list R) (acc : R),
    fold_left Rplus (zip_with Rmult (vdiv a c) (vdiv b c)) (acc * (/ c * / c))
    = fold_left Rplus (zip_with Rmult a b) acc * (/ c * / c).
Proof.
  induction a as [|x a IH]; intros [|y b] acc; simpl; auto.
  rewrite <- IH. f_equal. unfold Rdiv. ring.
Qed.

Lemma dot_vdiv (c : R) (a : list R) :
  dot (vdiv a c) (vdiv a c) = dot a a * (/ c * / c).
Proof.
  unfold dot. cbn [f_add f_mul f_of_Z real_scalar].
  rewrite <- dot_vdiv_acc. f_equal. ring.
Qed.

(** A vector divided by its own norm has norm 1, when that norm is not 0. *)
Lemma norm_vdiv (v : list R) :
  norm v <> 0 -> norm (vdiv v (norm v)) = 1.
Proof.
  intros Hn. unfold norm at 1. rewrite dot_vdiv.
  cbn [f_sqrt real_scalar].
  assert (Hpos : 0 < dot v v).
  { destruct (Rlt_le_dec 0 (dot v v)) as [Hlt|Hle]; [exact Hlt |].
    exfalso. apply Hn. unfold norm. cbn [f_sqrt real_scalar].
    now apply sqrt_neg_0. }
  assert (Hsq : norm v * norm v = dot v v).
  { unfold norm. cbn [f_sqrt real_scalar]. apply sqrt_sqrt. lra. }
  replace (dot v v * (/ norm v * / norm v)) with 1.
  - apply sqrt_1.
  - rewrite <- Hsq. now field.
Qed.

Lemma spec_step_unit d t ell (s : @estimate R) (k : nat) :
  shaped d s -> unit_upto k s -> unit_upto (S k) (spec_step t ell s k).
Proof.
  destruct s as [[lv A] xv]. intros ((Hl & _ & _) & _) Hinv.
  simpl in Hl. unfold spec_step.
  destruct (lv !! k) as [lk|] eqn:Elk.
  - assert (Hk : (k < length lv)%nat) by (eapply lookup_lt_Some; eauto).
    destruct (lookup_lt_is_Some_2 (columns A) k) as [uk Euk]; [lia |].
    rewrite Euk. set (v := provisional t ell lk uk xv).
    intros i li Hi Hli Hne. simpl in *.
    destruct (Nat.eq_dec i k) as [->|Hik].
    + rewrite list_lookup_insert_eq in Hli by exact Hk.
      injection Hli as <-.
      exists (vdiv v (norm v)). split.
      * apply list_lookup_insert_eq. lia.
      * now apply norm_vdiv.
    + rewrite list_lookup_insert_ne in Hli by auto.
      destruct (Hinv i li) as (c & Ec & Hc); auto; [lia |].
      exists c. split; [| exact Hc]. simpl.
      now rewrite list_lookup_insert_ne by auto.
  - intros i li Hi Hli Hne. simpl in *.
    destruct (Nat.eq_dec i k) as [->|Hik]; [congruence |].
    apply (Hinv i li); auto. lia.
Qed.

Lemma spec_update_unit d t ell (q : nat) (s : @estimate R) :
  shaped d s -> unit_upto q (spec_update t ell q s).
Proof.
  intros Hs. unfold spec_update. induction q as [|q IH].
  - intros i li Hi. lia.
  - rewrite seq_S, fold_left_app. cbn [fold_left Nat.add].
    eapply spec_step_unit; [| exact IH].
    exact (proj1 (fold_spec_step_shaped d t ell (seq 0 q) s Hs)).
Qed.

Lemma absorb_unit d ell (q : nat) (lA : list R * matrix R) t xv :
  est_shaped d lA -> length xv = d ->
  unit_upto q (absorb ell q lA t xv, xv).
Proof.
  intros HlA Hx. unfold absorb.
  pose proof (spec_update_unit d t ell q (fst lA, snd lA, xv)
                (conj HlA Hx)) as Hu.
  intros i li Hi Hli Hne. apply (Hu i li Hi Hli Hne).
Qed.

Lemma schedule_in_range n_its n :
  (0 < n)%Z ->
  Forall (fun tj : Z * Z => (0 <= snd tj < n)%Z) (schedule n_its n).
Proof.
  intros Hn. unfold schedule. apply Forall_map, Forall_forall.
  intros t _. simpl. apply Z.mod_pos_bound. exact Hn.
Qed.


(** ** More in real arithmetic *)


Lemma dot_deflate_acc (c : R) (x : list R) :
  forall (u : list R) (a b : R),
    length x = length u ->
    fold_left Rplus
      (zip_with Rmult (zip_with Rminus x (map (Rmult c) u)) u) (a - c * b)
    = fold_left Rplus (zip_with Rmult x u) a
      - c * fold_left Rplus (zip_with Rmult u u) b.
Proof.
  induction x as [|e x IH]; intros [|f u] a b Hlen; try discriminate.
  - reflexivity.
  - cbn. injection Hlen as Hlen. rewrite <- (IH u _ _ Hlen). f_equal. ring.
Qed.

(** Deflating by a unit vector leaves a vector orthogonal to it. *)
Lemma dot_deflate (x u : list R) :
  length x = length u -> dot u u = 1 -> dot (deflate x u) u = 0.
Proof.
  intros Hlen Hu. unfold deflate, vsub, scale.
  pose proof (dot_deflate_acc (dot x u) x u 0 0 Hlen) as E.
  replace (0 - dot x u * 0) with 0 in E by ring.
  change (fold_left Rplus (zip_with Rmult x u) 0) with (dot x u) in E.
  change (fold_left Rplus (zip_with Rmult u u) 0) with (dot u u) in E.
  rewrite Hu in E.
  change (dot (zip_with Rminus x (map (Rmult (dot x u)) u)) u = 0).
  unfold dot at 1. cbn [f_add f_mul f_of_Z real_scalar].
  rewrite E. ring.
Qed.

Lemma norm_one_dot (u : list R) : norm u = 1 -> dot u u = 1.
Proof.
  unfold norm. cbn [f_sqrt real_scalar]. intros Hn.
  destruct (Rlt_le_dec (dot u u) 0) as [Hneg|Hpos].
  - rewrite sqrt_neg_0 in Hn by lra. lra.
  - rewrite <- (sqrt_sqrt (dot u u) Hpos). rewrite Hn. ring.
Qed.


Lemma dot_neg_acc (x : list R) :
  forall (u : list R) (a : R),
    fold_left Rplus (zip_with Rmult (map Ropp x) u) (- a)
    = - fold_left Rplus (zip_with Rmult x u) a.
Proof.
  induction x as [|e x IH]; intros [|f u] a; cbn; auto.
  rewrite <- IH. f_equal. ring.
Qed.

Lemma dot_neg (x u : list R) : dot (map Ropp x) u = - dot x u.
Proof.
  unfold dot. cbn [f_add f_mul f_of_Z real_scalar].
  rewrite <- dot_neg_acc. f_equal. ring.
Qed.

Lemma provisional_neg t ell li (ui x : list R) :
  provisional t ell li ui (map Ropp x) = provisional t ell li ui x.
Proof.
  unfold provisional. f_equal. rewrite dot_neg. unfold scale.
  rewrite map_map. apply map_ext. intros e.
  cbn [f_mul real_scalar]. ring.
Qed.

Lemma deflate_neg (x u : list R) :
  deflate (map Ropp x) u = map Ropp (deflate x u).
Proof.
  unfold deflate. rewrite dot_neg. unfold vsub, scale.
  cbn [f_sub f_mul real_scalar]. generalize (dot x u). intros c.
  revert u. induction x as [|e x IH]; intros [|f u]; cbn; auto.
  rewrite IH. f_equal. ring.
Qed.

Lemma spec_step_neg t ell lv (A : matrix R) (x : list R) (i : nat) :
  spec_step t ell (lv, A, map Ropp x) i
  = (fst (spec_step t ell (lv, A, x) i),
     map Ropp (snd (spec_step t ell (lv, A, x) i))).
Proof.
  unfold spec_step. destruct (lv !! i); [| reflexivity].
  destruct (columns A !! i); [| reflexivity].
  rewrite provisional_neg, deflate_neg. reflexivity.
Qed.

Lemma spec_update_neg t ell (idx : list nat) :
  forall lv (A : matrix R) (x : list R),
    fst (fold_left (spec_step t ell) idx (lv, A, map Ropp x))
    = fst (fold_left (spec_step t ell) idx (lv, A, x)).
Proof.
  induction idx as [|i idx IH]; intros lv A x; [reflexivity |].
  cbn [fold_left]. rewrite spec_step_neg.
  destruct (spec_step t ell (lv, A, x) i) as [[lv' A'] x'].
  cbn [fst snd]. apply IH.
Qed.


End UnitNorm.

(** ** The code run on concrete heaps *)

(** The scenario's estimator is well formed. *)
Lemma Floats_self0_well_formed : well_formed Floats.self0 Floats.h0.
Proof.
  exists [1; 1]%float, (Matrix 4 (take 2 Floats.X_cols)).
  split; [reflexivity |]. split; [reflexivity |].
  split; [reflexivity |]. split; [reflexivity |].
  split; [repeat constructor | vm_compute; discriminate].
Qed.

(** C1 on the scenario: one call with the sample [[3, 4, 0, 0]]. *)
Lemma fit_next_update_rule_witness :
  exists h',
    fit_next Floats.coord_update Floats.self0 Floats.sample true Floats.h0
    = (Ok (set_t Floats.self0 (self_t Floats.self0 + 1)), h') /\
    arrays_of (set_t Floats.self0 (self_t Floats.self0 + 1)) h'
    = Some (fst (spec_update (self_t Floats.self0) (self_ell Floats.self0)
                   (Z.to_nat (self_q Floats.self0))
                   ([1; 1]%float, Matrix 4 (take 2 Floats.X_cols),
                    [3; 4; 0; 0]%float))).
Proof.
  apply (fit_next_update_rule Floats.coord_update Floats.self0 Floats.sample
           true Floats.h0).
  - reflexivity.
  - exact Floats_self0_well_formed.
  - reflexivity.
  - reflexivity.
  - reflexivity.
  - intros _. discriminate.
Defined.

(** C9 on the scenario: the array passed as sample has two entries, and
    [d] is 4. *)
Lemma fit_next_shape_mismatch_witness :
  exists h',
    fit_next Floats.coord_update Floats.self0 Floats.lambda0 false Floats.h0
    = (Raise AssertionError, h') /\
    (forall l, is_Some (vecs Floats.h0 !! l) ->
               vecs h' !! l = vecs Floats.h0 !! l) /\
    mats h' = mats Floats.h0 /\
    rng h' = rng Floats.h0 /\
    (false = true -> h' = Floats.h0).
Proof.
  apply (fit_next_shape_mismatch Floats.coord_update Floats.self0
           Floats.lambda0 false Floats.h0 [1; 1]%float).
  - reflexivity.
  - vm_compute. discriminate.
Defined.

(** C10 (amended) on the scenario: on the portable path with [in_place]
    true, and on the optimized path with [in_place] false. *)
Lemma fit_next_keeps_sample_witness :
  (exists self' h',
      fit_next Floats.coord_update Floats.self0 Floats.sample true Floats.h0
      = (Ok self', h') /\
      vecs h' !! Floats.sample = Some [3; 4; 0; 0]%float) /\
  (exists self' h',
      fit_next Floats.coord_update Floats.self0_cython Floats.sample false
        Floats.h0
      = (Ok self', h') /\
      vecs h' !! Floats.sample = Some [3; 4; 0; 0]%float).
Proof.
  split.
  - apply (proj1 (fit_next_keeps_sample Floats.coord_update Floats.self0
                    Floats.sample Floats.h0 [3; 4; 0; 0]%float
                    eq_refl ltac:(discriminate))
             true [1; 1]%float (Matrix 4 (take 2 Floats.X_cols))).
    + reflexivity.
    + exact Floats_self0_well_formed.
    + reflexivity.
    + reflexivity.
  - eexists _, _. split; [vm_compute; reflexivity |].
    eapply (proj2 (fit_next_keeps_sample Floats.coord_update
                     Floats.self0_cython Floats.sample Floats.h0
                     [3; 4; 0; 0]%float eq_refl ltac:(discriminate))).
    + reflexivity.
    + exact spec_coord_update_frame.
    + discriminate.
    + vm_compute. reflexivity.
Defined.

(** C10, as stated, fails.  With [in_place] true the deflation does not
    write into the caller's array: after the call the array holds the
    sample as passed, and the deflated vector is in another array. *)
Lemma in_place_counterexample :
  exists self' h' xd,
    fit_next Floats.coord_update Floats.self0 Floats.sample true Floats.h0
    = (Ok self', h') /\
    vecs h' !! Floats.sample = Some [3; 4; 0; 0]%float /\
    vecs h' !! 4%positive = Some xd /\
    xd <> [3; 4; 0; 0]%float.
Proof.
  eexists _, _, _. split; [vm_compute; reflexivity |].
  split; [reflexivity |]. split; [reflexivity |].
  intros E.
  apply (f_equal (fun l => match l with
                           | a :: _ => PrimFloat.eqb a 3
                           | [] => false
                           end)) in E.
  vm_compute in E. discriminate.
Qed.

(** C5, as stated, fails.  The eigenvalue guess is zero and the sample is
    orthogonal to the eigenvector guess, so [v] is the zero vector and
    [||v|| = 0]: the call returns, no error is raised, [lambda[0]] is 0 and
    the division has put NaN into both entries of [Uhat[:, 0]]. *)
Lemma zero_norm_counterexample :
  exists self' h',
    fit_next Floats.coord_update Floats.self_zero Floats.sample false
      Floats.h_zero
    = (Ok self', h') /\
    vecs h' !! Floats.lambda0 = Some [0%float] /\
    mats h' !! Floats.Uhat0 = Some (Matrix 2 [[nan; nan]]).
Proof.
  eexists _, _. split; [vm_compute; reflexivity |].
  split; reflexivity.
Qed.

(** C5 (amended) on the degenerate start, where [||v||] is zero. *)
Lemma column_update_unguarded_witness :
  exists x' h',
    fit_next_column 1 2 Floats.lambda0 Floats.Uhat0 0 Floats.sample
      Floats.h_zero
    = (Ok x', h') /\
    _iterate_column 1 2 Floats.lambda0 Floats.Uhat0 0 Floats.sample
      Floats.h_zero
    = (Ok x', h') /\
    _iterate_and_compute_errors_column 1 2 Floats.lambda0 Floats.Uhat0 0
      Floats.sample Floats.h_zero
    = (Ok x', h') /\
    vecs h' !! Floats.lambda0
    = Some (<[0%nat := norm (provisional 1 2 0%float [1; 0]%float
                              [0; 1]%float)]> [0%float]) /\
    mats h' !! Floats.Uhat0
    = Some (Matrix (nrows (Matrix 2 [[1; 0]%float]))
              (<[0%nat := vdiv (provisional 1 2 0%float [1; 0]%float
                                  [0; 1]%float)
                            (norm (provisional 1 2 0%float [1; 0]%float
                                     [0; 1]%float))]>
                 (columns (Matrix 2 [[1; 0]%float])))).
Proof.
  apply (column_update_unguarded 1 2 Floats.lambda0 Floats.Uhat0 0
           Floats.sample Floats.h_zero [0%float] (Matrix 2 [[1; 0]%float])
           [0; 1]%float 0%float [1; 0]%float).
  - lia.
  - reflexivity.
  - reflexivity.
  - reflexivity.
  - discriminate.
  - reflexivity.
  - reflexivity.
  - reflexivity.
  - reflexivity.
Defined.


(** The estimator over the reals is well formed. *)
Lemma Reals_self0_well_formed : well_formed Reals.self0 Reals.h0.
Proof.
  exists [1%R], (Matrix 2 [[1%R; 0%R]]).
  split; [reflexivity |]. split; [reflexivity |].
  split; [reflexivity |]. split; [reflexivity |].
  split; [repeat constructor | vm_compute; discriminate].
Qed.


(** C2, as stated, fails.  On the 4-by-5 matrix [X] with one epoch the
    driver makes four updates, not five, and its first update absorbs
    column 1, not column 0: the matrix it returns is the one of the
    schedule [(t, t mod 5)] for [t = 1 .. 4], and is not the one that five
    updates over the columns 0 to 4 give. *)
Lemma driver_schedule_counterexample :
  exists U h' A,
    CCIPCA Floats.random_normal1 Floats.random_normal2
      Floats.initialize_errors Floats.compute_errors
      Floats.X 2 1 None (Some Floats.Uhat0) (Some Floats.lambda0) 2 Floats.h0
    = (Ok (PyMatrix U), h') /\
    mats h' !! U = Some A /\
    schedule (1 * 5) 5 = [(1, 1); (2, 2); (3, 3); (4, 4)] /\
    spec_schedule 1 5 = [(1, 0); (2, 1); (3, 2); (4, 3); (5, 4)] /\
    A = snd (absorb_all 2 2 (Matrix 4 Floats.X_cols) (schedule (1 * 5) 5)
               ([1; 1]%float, Matrix 4 (take 2 Floats.X_cols))) /\
    A <> snd (absorb_all 2 2 (Matrix 4 Floats.X_cols) (spec_schedule 1 5)
                ([1; 1]%float, Matrix 4 (take 2 Floats.X_cols))).
Proof.
  eexists _, _, _. split; [vm_compute; reflexivity |].
  split; [reflexivity |]. split; [reflexivity |]. split; [reflexivity |].
  split; [vm_compute; reflexivity |].
  intros E.
  apply (f_equal (fun M => map (map Prim2SF) (columns M))) in E.
  vm_compute in E. discriminate.
Qed.

(** C2 (amended) on the scenario, with one epoch. *)
Lemma CCIPCA_schedule_witness :
  exists U lam h2 lv A,
    (exists h',
        CCIPCA Floats.random_normal1 Floats.random_normal2
          Floats.initialize_errors Floats.compute_errors
          Floats.X 2 1 None (Some Floats.Uhat0) (Some Floats.lambda0) 2
          Floats.h0
        = (Ok (PyMatrix U), h') /\
        est_post lam U h2 h'
          (absorb_all 2 (Z.to_nat 2) (Matrix 4 Floats.X_cols)
             (schedule (1 * Z.of_nat (length Floats.X_cols))
                (Z.of_nat (length Floats.X_cols)))
             (lv, A))) /\
    length (schedule (1 * Z.of_nat (length Floats.X_cols))
              (Z.of_nat (length Floats.X_cols)))
    = Z.to_nat (1 * Z.of_nat (length Floats.X_cols) - 1) /\
    (forall (k : nat) t j,
        schedule (1 * Z.of_nat (length Floats.X_cols))
          (Z.of_nat (length Floats.X_cols)) !! k = Some (t, j) ->
        t = 1 + Z.of_nat k /\ j = t mod Z.of_nat (length Floats.X_cols)) /\
    (forall o : Floats.Opts,
        (forall U' t e h',
            Floats.compute_errors o U' t e h' = (Ok tt, h')) ->
        CCIPCA Floats.random_normal1 Floats.random_normal2
          Floats.initialize_errors Floats.compute_errors
          Floats.X 2 1 (Some o) (Some Floats.Uhat0) (Some Floats.lambda0) 2
          Floats.h0
        = bind (Floats.initialize_errors o
                  (1 * Z.of_nat (length Floats.X_cols)))
            (fun errs =>
               bind (_iterate Floats.X lam U 2
                       (1 * Z.of_nat (length Floats.X_cols))
                       (Z.of_nat (length Floats.X_cols)) 2)
                 (fun _ => ret (PyErrs errs))) h2).
Proof.
  eexists _, _, _, _, _.
  eapply (CCIPCA_schedule Floats.random_normal1 Floats.random_normal2
            Floats.initialize_errors Floats.compute_errors
            Floats.X (Matrix 4 Floats.X_cols) 2 1
            (Some Floats.Uhat0) (Some Floats.lambda0) 2 Floats.h0).
  - reflexivity.
  - repeat constructor.
  - vm_compute. reflexivity.
  - vm_compute. reflexivity.
  - vm_compute. reflexivity.
  - vm_compute. reflexivity.
  - split; [reflexivity |]. split; [repeat constructor | reflexivity].
  - reflexivity.
Defined.

(** C3, as stated, fails.  With no evaluator the driver gives back the
    reference to [Uhat], which is not a pair: the caller is not given
    [lambda_]. *)
Lemma driver_return_counterexample :
  exists U h',
    CCIPCA Floats.random_normal1 Floats.random_normal2
      Floats.initialize_errors Floats.compute_errors
      Floats.X 2 1 None (Some Floats.Uhat0) (Some Floats.lambda0) 2 Floats.h0
    = (Ok (PyMatrix U), h') /\
    forall a b : pyval Floats.Errs, PyMatrix U <> PyTuple a b.
Proof.
  eexists _, _. split; [vm_compute; reflexivity |].
  intros a b. discriminate.
Qed.

(** C3 (amended) on the scenario, with an evaluator. *)
Lemma CCIPCA_return_value_witness :
  exists (XA : matrix float) U h1 lam h2,
    mats Floats.h0 !! Floats.X = Some XA /\
    init_Uhat Floats.random_normal2 2 (fst (shape2 XA)) (Some Floats.Uhat0)
      Floats.h0
    = (Ok U, h1) /\
    init_lambda_ Floats.random_normal1 2 (Some Floats.lambda0) h1
    = (Ok lam, h2) /\
    exists e h3,
      Floats.initialize_errors tt (1 * snd (shape2 XA)) h2 = (Ok e, h3) /\
      PyErrs 5%positive = PyErrs e.
Proof.
  eapply (CCIPCA_return_value Floats.random_normal1 Floats.random_normal2
            Floats.initialize_errors Floats.compute_errors
            Floats.X 2 1 (Some tt) (Some Floats.Uhat0) (Some Floats.lambda0)
            2 Floats.h0 (PyErrs 5%positive)).
  vm_compute. reflexivity.
Defined.

(** C4: the counter after [fit].  Whatever the batch kernel does, a call of
    [fit] that returns leaves the counter as it was: [fit] assigns
    [self.Uhat] and [self.lambda_] and nothing else.  On the 4-by-5 matrix
    [X], with the kernel modelled from its contract, the batch update
    leaves [Uhat] and [lambda_] as five single-sample updates at the
    counters 1 to 5 leave them, and the counter at 1: it is not advanced
    by 5. *)
Theorem fit_counter_stale :
  (forall (F : Type) (S : Scalar F) (G : Type)
          (kernel : loc -> Z -> Z -> F -> F -> loc -> loc -> Z -> loc
                    -> M F G (loc * loc))
          (self : CCIPCA_CLASS) (X : loc) (h : heap F G) self' h',
      fit kernel self X h = (Ok self', h') ->
      self_t self' = self_t self) /\
  (exists self' h',
      fit Floats.coord_update_total Floats.self0_cython Floats.X Floats.h0
      = (Ok self', h') /\
      arrays_of self' h'
      = Some (absorb_all 2 2 (Matrix 4 Floats.X_cols) (spec_schedule 1 5)
                ([1; 1]%float, Matrix 4 (take 2 Floats.X_cols))) /\
      self_t Floats.self0_cython = 1 /\
      self_t self' = 1 /\
      self_t self' <> self_t Floats.self0_cython + 5).
Proof.
  split.
  - intros F S G kernel self X h self' h'. apply fit_counter.
  - eexists _, _. split; [vm_compute; reflexivity |].
    split; [vm_compute; reflexivity |].
    split; [reflexivity |]. split; [reflexivity |].
    vm_compute. discriminate.
Qed.

(** C6, as stated, fails.  The constructor accepts [q = 0] (with [d = 1]
    and initial guesses of shapes [(1, 0)] and [(0,)]), and [q = 2 > d = 1]
    (with initial guesses of shapes [(1, 2)] and [(2,)]); with no initial
    guess it accepts both as well. *)
Lemma degenerate_q_counterexample :
  (exists self h',
      __init__ Floats.random_normal1 Floats.random_normal2 0 1
        (Some 1%positive) (Some 1%positive) 2 true Floats.h_shapes
      = (Ok self, h') /\ self_q self = 0 /\ self_d self = 1) /\
  (exists self h',
      __init__ Floats.random_normal1 Floats.random_normal2 2 1
        (Some 2%positive) (Some 2%positive) 2 true Floats.h_shapes
      = (Ok self, h') /\ self_q self = 2 /\ self_d self = 1) /\
  (exists self h',
      __init__ Floats.random_normal1 Floats.random_normal2 0 1
        None None 2 true Floats.h_shapes
      = (Ok self, h') /\ self_q self = 0 /\ self_d self = 1) /\
  (exists self h',
      __init__ Floats.random_normal1 Floats.random_normal2 2 1
        None None 2 true Floats.h_shapes
      = (Ok self, h') /\ self_q self = 2 /\ self_d self = 1).
Proof.
  repeat split; eexists _, _; (split; [vm_compute; reflexivity |]);
    split; reflexivity.
Qed.

(** C6 (amended): [q = 2] and [d = 1] with a [Uhat0] of shape [(1, 0)], and
    with a [lambda0] of shape [(0,)]. *)
Lemma construction_shape_mismatch_witness :
  __init__ Floats.random_normal1 Floats.random_normal2 2 1
    (Some 1%positive) None 2 true Floats.h_shapes
  = (Raise AssertionError, Floats.h_shapes) /\
  (exists h1,
      __init__ Floats.random_normal1 Floats.random_normal2 2 1
        (Some 2%positive) (Some 1%positive) 2 true Floats.h_shapes
      = (Raise AssertionError, h1)) /\
  CCIPCA Floats.random_normal1 Floats.random_normal2
    Floats.initialize_errors Floats.compute_errors
    2%positive 2 1 None (Some 1%positive) None 2 Floats.h_shapes
  = (Raise AssertionError, Floats.h_shapes) /\
  (exists h1,
      CCIPCA Floats.random_normal1 Floats.random_normal2
        Floats.initialize_errors Floats.compute_errors
        2%positive 2 1 None (Some 2%positive) (Some 1%positive) 2
        Floats.h_shapes
      = (Raise AssertionError, h1)).
Proof.
  destruct (construction_shape_mismatch Floats.random_normal1
              Floats.random_normal2 Floats.initialize_errors
              Floats.compute_errors 2 1 2 true 2%positive 1 None
              Floats.h_shapes) as (C1 & C2 & C3 & C4).
  split; [| split; [| split]].
  - apply (C1 1%positive (Matrix 1 [])); [reflexivity |].
    vm_compute. discriminate.
  - eexists. eapply (C2 (Some 2%positive) 1%positive []).
    + vm_compute. reflexivity.
    + reflexivity.
    + vm_compute. discriminate.
  - apply (C3 (Matrix 1 [[1]; [1]]%float) 1%positive (Matrix 1 []));
      [reflexivity | reflexivity |].
    vm_compute. discriminate.
  - eexists.
    eapply (C4 (Matrix 1 [[1]; [1]]%float) (Some 2%positive) 1%positive []).
    + reflexivity.
    + vm_compute. reflexivity.
    + reflexivity.
    + vm_compute. discriminate.
Defined.

(** C8 on the scenario: the constructor, and two calls of [fit_next]. *)
Lemma counter_counts_calls_witness :
  (exists self h',
      __init__ Floats.random_normal1 Floats.random_normal2 2 4
        (Some Floats.Uhat0) (Some Floats.lambda0) 2 false Floats.h0
      = (Ok self, h') /\ self_t self = 1) /\
  (exists self2,
      after_calls Floats.coord_update 2 Floats.self0 self2 /\
      self_t self2 = self_t Floats.self0 + Z.of_nat 2).
Proof.
  destruct (counter_counts_calls Floats.random_normal1 Floats.random_normal2
              Floats.coord_update) as [C1 C2].
  split.
  - eexists _, _. split; [vm_compute; reflexivity |].
    eapply (C1 2 4 (Some Floats.Uhat0) (Some Floats.lambda0) 2 false
              Floats.h0).
    vm_compute. reflexivity.
  - assert (Hc : after_calls Floats.coord_update 2 Floats.self0
                   (set_t (set_t Floats.self0 2) 3)).
    { eapply (calls_S _ 1 _ (set_t Floats.self0 2) _ Floats.sample false
                Floats.h1).
      - eapply (calls_S _ 0 _ Floats.self0 _ Floats.sample false Floats.h0).
        + apply calls_0.
        + vm_compute. reflexivity.
      - vm_compute. reflexivity. }
    eexists. split; [exact Hc | exact (C2 _ _ _ Hc)].
Defined.

(** ** More of the code on concrete heaps *)

(** X1 on the scenario: the constructor on the initial guesses of [h0]. *)
Lemma __init___copies_guesses_witness :
  exists self h',
    __init__ Floats.random_normal1 Floats.random_normal2 2 4
      (Some Floats.Uhat0) (Some Floats.lambda0) 2 false Floats.h0
    = (Ok self, h') /\
    well_formed self h' /\
    arrays_of self h'
    = Some ([1; 1]%float, Matrix 4 (take 2 Floats.X_cols)) /\
    self_t self = 1 /\
    self_Uhat self <> Floats.Uhat0 /\
    self_lambda_ self <> Floats.lambda0 /\
    (forall l, is_Some (vecs Floats.h0 !! l) ->
               vecs h' !! l = vecs Floats.h0 !! l) /\
    (forall l, is_Some (mats Floats.h0 !! l) ->
               mats h' !! l = mats Floats.h0 !! l) /\
    rng h' = rng Floats.h0.
Proof.
  apply (__init___copies_guesses Floats.random_normal1 Floats.random_normal2
           2 4 Floats.Uhat0 Floats.lambda0 2 false Floats.h0).
  - reflexivity.
  - reflexivity.
  - reflexivity.
  - reflexivity.
  - repeat constructor.
Defined.

(** X2 on the scenario: the constructor, then one call with the sample
    [[3, 4, 0, 0]]. *)
Lemma guesses_survive_update_witness :
  exists self h1 self' h2,
    __init__ Floats.random_normal1 Floats.random_normal2 2 4
      (Some Floats.Uhat0) (Some Floats.lambda0) 2 false Floats.h0
    = (Ok self, h1) /\
    fit_next Floats.coord_update self Floats.sample true h1 = (Ok self', h2) /\
    self_t self' = 2 /\
    arrays_of self' h2
    = Some (absorb 2 (Z.to_nat 2)
              ([1; 1]%float, Matrix 4 (take 2 Floats.X_cols)) 1
              [3; 4; 0; 0]%float) /\
    mats h2 !! Floats.Uhat0 = Some (Matrix 4 (take 2 Floats.X_cols)) /\
    vecs h2 !! Floats.lambda0 = Some [1; 1]%float /\
    vecs h2 !! Floats.sample = Some [3; 4; 0; 0]%float.
Proof.
  apply (guesses_survive_update Floats.random_normal1 Floats.random_normal2
           Floats.coord_update 2 4 Floats.Uhat0 Floats.lambda0 2
           Floats.sample true Floats.h0).
  - reflexivity.
  - reflexivity.
  - reflexivity.
  - reflexivity.
  - repeat constructor.
  - reflexivity.
  - reflexivity.
Defined.

(** X3 on the scenario: [d = 0], [q = -1], a sample matrix with no row,
    and the driver with [q = -1]. *)
Lemma construction_without_guess_errors_witness :
  __init__ Floats.random_normal1 Floats.random_normal2 2 0 None None 2 false
    Floats.h0
  = (Raise ZeroDivisionError, Floats.h0) /\
  __init__ Floats.random_normal1 Floats.random_normal2 (-1) 4 None None 2
    false Floats.h0
  = (Raise ValueError, Floats.h0) /\
  CCIPCA Floats.random_normal1 Floats.random_normal2
    Floats.initialize_errors Floats.compute_errors
    1%positive 2 1 None None None 2 Edge.h_norow
  = (Raise ZeroDivisionError, Edge.h_norow) /\
  CCIPCA Floats.random_normal1 Floats.random_normal2
    Floats.initialize_errors Floats.compute_errors
    Floats.X (-1) 1 None None None 2 Floats.h0
  = (Raise ValueError, Floats.h0).
Proof.
  destruct (construction_without_guess_errors Floats.random_normal1
              Floats.random_normal2 Floats.initialize_errors
              Floats.compute_errors) as (C1 & C2 & C3 & C4).
  split; [| split; [| split]].
  - apply C1.
  - apply C2; lia.
  - apply (C3 1%positive (Matrix 0 [[]; []; []])); reflexivity.
  - apply (C4 Floats.X (Matrix 4 Floats.X_cols)).
    + reflexivity.
    + cbn. lia.
    + lia.
Defined.

(** The stand-in generator gives arrays of the shapes it is asked for. *)
Lemma Floats_draws_shaped :
  draws_shaped Floats.random_normal1 Floats.random_normal2.
Proof.
  split.
  - intros m s n g. cbn. apply repeat_length.
  - intros m s d q g. cbn. split; [reflexivity |].
    split; [apply repeat_length |].
    unfold rectangular. cbn.
    apply Forall_forall. intros c Hc. apply list_elem_of_In, repeat_spec in Hc. subst c.
    apply repeat_length.
Qed.

(** X4 on the scenario: [q = 2] and [d = 4], no initial guess. *)
Lemma __init___random_well_formed_witness :
  exists self h',
    __init__ Floats.random_normal1 Floats.random_normal2 2 4 None None 2
      false Floats.h0
    = (Ok self, h') /\
    well_formed self h' /\
    self_t self = 1 /\
    (forall l, is_Some (vecs Floats.h0 !! l) ->
               vecs h' !! l = vecs Floats.h0 !! l) /\
    (forall l, is_Some (mats Floats.h0 !! l) ->
               mats h' !! l = mats Floats.h0 !! l).
Proof.
  apply (__init___random_well_formed Floats.random_normal1
           Floats.random_normal2 2 4 2 false Floats.h0).
  - exact Floats_draws_shaped.
  - lia.
  - lia.
Defined.

(** X5 on the scenario, with three epochs. *)
Lemma CCIPCA_keeps_inputs_witness :
  exists U h',
    CCIPCA Floats.random_normal1 Floats.random_normal2
      Floats.initialize_errors Floats.compute_errors
      Floats.X 2 3 None (Some Floats.Uhat0) (Some Floats.lambda0) 2 Floats.h0
    = (Ok (PyMatrix U), h') /\
    mats Floats.h0 !! U = None /\
    is_Some (mats h' !! U) /\
    (forall l, is_Some (vecs Floats.h0 !! l) ->
               vecs h' !! l = vecs Floats.h0 !! l) /\
    (forall l, is_Some (mats Floats.h0 !! l) ->
               mats h' !! l = mats Floats.h0 !! l) /\
    rng h' = rng Floats.h0.
Proof.
  apply (CCIPCA_keeps_inputs Floats.random_normal1 Floats.random_normal2
           Floats.initialize_errors Floats.compute_errors
           Floats.X (Matrix 4 Floats.X_cols) 2 3 Floats.Uhat0
           (Matrix 4 (take 2 Floats.X_cols)) Floats.lambda0 [1; 1]%float 2
           Floats.h0).
  - reflexivity.
  - repeat constructor.
  - reflexivity.
  - reflexivity.
  - reflexivity.
  - reflexivity.
  - repeat constructor.
Defined.

(** X6 on a sample matrix of one column, with one epoch: the matrix the
    driver gives back is the initial guess. *)
Lemma CCIPCA_no_update_witness :
  exists U h2,
    CCIPCA Floats.random_normal1 Floats.random_normal2
      Floats.initialize_errors Floats.compute_errors
      1%positive 2 1 None (Some 2%positive) (Some 1%positive) 2 Edge.h_single
    = (Ok (PyMatrix U), h2) /\
    mats h2 !! U = Some (Matrix 4 (take 2 Floats.X_cols)) /\
    (forall o,
        CCIPCA Floats.random_normal1 Floats.random_normal2
          Floats.initialize_errors Floats.compute_errors
          1%positive 2 1 (Some o) (Some 2%positive) (Some 1%positive) 2
          Edge.h_single
        = bind (Floats.initialize_errors o
                  (1 * Z.of_nat (length [[5; 6; 7; 8]%float])))
            (fun errs => ret (PyErrs errs)) h2).
Proof.
  eexists _, _.
  assert (H := CCIPCA_no_update Floats.random_normal1 Floats.random_normal2
                 Floats.initialize_errors Floats.compute_errors
                 1%positive (Matrix 4 [[5; 6; 7; 8]%float]) 2 1
                 (Some 2%positive) (Some 1%positive) 2 Edge.h_single).
  edestruct H as [H1 H2].
  - reflexivity.
  - vm_compute. reflexivity.
  - vm_compute. reflexivity.
  - cbn. lia.
  - split; [exact H1 |]. split; [reflexivity | exact H2].
Defined.

(** X7 on the scenario. *)
Lemma fit_next_well_formed_witness :
  exists self' h',
    fit_next Floats.coord_update Floats.self0 Floats.sample true Floats.h0
    = (Ok self', h') /\
    well_formed self' h' /\
    self_t self' = self_t Floats.self0 + 1 /\
    (self_q self', self_d self', self_ell self', self_cython self')
    = (2, 4, 2, false).
Proof.
  apply (fit_next_well_formed Floats.coord_update Floats.self0 Floats.sample
           true Floats.h0 [1; 1]%float (Matrix 4 (take 2 Floats.X_cols))
           [3; 4; 0; 0]%float).
  - reflexivity.
  - exact Floats_self0_well_formed.
  - reflexivity.
  - reflexivity.
  - reflexivity.
  - intros _. discriminate.
Defined.

(** X8 on the scenario: two epochs over the five columns of [X]. *)
Lemma feed_epochs_run_witness :
  exists self' h',
    feed_epochs Floats.coord_update Floats.self0 Floats.X 2 Floats.h0
    = (Ok self', h') /\
    self_t self' = 1 + Z.max 0 2 * Z.of_nat (length Floats.X_cols) /\
    arrays_of self' h'
    = Some (absorb_all 2 (Z.to_nat 2) (Matrix 4 Floats.X_cols)
              (stream_schedule 1 2 (Z.of_nat (length Floats.X_cols)))
              ([1; 1]%float, Matrix 4 (take 2 Floats.X_cols))) /\
    (forall (k : nat) tj,
        stream_schedule 1 2 (Z.of_nat (length Floats.X_cols)) !! k = Some tj ->
        tj = (1 + Z.of_nat k,
              Z.of_nat k mod Z.of_nat (length Floats.X_cols))) /\
    well_formed self' h' /\
    mats h' !! Floats.X = Some (Matrix 4 Floats.X_cols).
Proof.
  apply (feed_epochs_run Floats.coord_update Floats.self0 Floats.X
           (Matrix 4 Floats.X_cols) 2 Floats.h0 [1; 1]%float
           (Matrix 4 (take 2 Floats.X_cols))).
  - reflexivity.
  - exact Floats_self0_well_formed.
  - reflexivity.
  - reflexivity.
  - discriminate.
  - repeat constructor.
  - reflexivity.
Defined.



(** The estimator over the reals is well formed on the heap that holds the
    sample and its opposite. *)
Lemma Edge_self0_well_formed : well_formed Reals.self0 Edge.h_signs.
Proof.
  exists [1%R], (Matrix 2 [[1%R; 0%R]]).
  split; [reflexivity |]. split; [reflexivity |].
  split; [reflexivity |]. split; [reflexivity |].
  split; [repeat constructor | vm_compute; discriminate].
Qed.


(** X12 on the scenario. *)
Lemma fit_next_writes_estimates_only_witness :
  exists self' h',
    fit_next Floats.coord_update Floats.self0 Floats.sample true Floats.h0
    = (Ok self', h') /\
    (self_lambda_ self', self_Uhat self', self_v self')
    = (Floats.lambda0, Floats.Uhat0, Floats.scratch) /\
    (forall l, l <> Floats.lambda0 -> is_Some (vecs Floats.h0 !! l) ->
               vecs h' !! l = vecs Floats.h0 !! l) /\
    (forall l, l <> Floats.Uhat0 -> mats h' !! l = mats Floats.h0 !! l) /\
    rng h' = rng Floats.h0.
Proof.
  apply (fit_next_writes_estimates_only Floats.coord_update Floats.self0
           Floats.sample true Floats.h0 [1; 1]%float
           (Matrix 4 (take 2 Floats.X_cols)) [3; 4; 0; 0]%float).
  - reflexivity.
  - exact Floats_self0_well_formed.
  - reflexivity.
  - reflexivity.
  - reflexivity.
  - intros _. discriminate.
Defined.

